(** * Creator simulation and popularity recommender: a shallow embedding

    The development follows [algo_confounding/creator_sim.py] and
    [src/popularity.py].  NumPy arrays become lists with their shape
    written out, Python exceptions become an explicit outcome, object
    mutation becomes state passing, and the random generators become
    explicit streams. *)

From Stdlib Require Import List ZArith QArith Lia Lqa Bool Arith.
From Stdlib Require Import Permutation Sorted.
Import ListNotations.

Set Implicit Arguments.

(** ** Floating-point values

    A NumPy float is modelled as an exact rational or one of the three
    IEEE 754 specials.  Finite arithmetic is exact and zero carries no
    sign; the specials follow IEEE 754, which is what NumPy does once
    [warnings.simplefilter("ignore")] (line 44) has silenced its
    warnings.  The rounding and the overflow of binary64 are outside the
    model: a value computed on a concrete input is the exact one, which
    the machine approximates, and what is proved of every input about the
    value of an entry rests on the order of the values and on the
    propagation of NaN and of the infinities, which rounding does not
    change. *)
Module Float.

Inductive float : Type :=
| Fin (q : Q)
| PInf
| NInf
| NaN.

Definition zero : float := Fin 0.
Definition one : float := Fin 1.

Definition sign (q : Q) : comparison := Qcompare q 0.

Definition add (x y : float) : float :=
  match x, y with
  | NaN, _ | _, NaN => NaN
  | Fin a, Fin b => Fin (a + b)
  | PInf, NInf | NInf, PInf => NaN
  | PInf, _ | _, PInf => PInf
  | NInf, _ | _, NInf => NInf
  end.

Definition inf_of (c : comparison) : float :=
  match c with
  | Gt => PInf
  | Lt => NInf
  | Eq => NaN
  end.

Definition mul (x y : float) : float :=
  match x, y with
  | NaN, _ | _, NaN => NaN
  | Fin a, Fin b => Fin (a * b)
  | Fin a, PInf | PInf, Fin a => inf_of (sign a)
  | Fin a, NInf | NInf, Fin a => inf_of (CompOpp (sign a))
  | PInf, PInf | NInf, NInf => PInf
  | PInf, NInf | NInf, PInf => NInf
  end.

(** True division: a finite value over zero is an infinity of the sign
    of the numerator, zero over zero is NaN. *)
Definition div (x y : float) : float :=
  match x, y with
  | NaN, _ | _, NaN => NaN
  | Fin a, Fin b =>
      match sign b with
      | Eq => inf_of (sign a)
      | _ => Fin (a / b)
      end
  | Fin _, PInf | Fin _, NInf => Fin 0
  | PInf, Fin b => match sign b with Lt => NInf | _ => PInf end
  | NInf, Fin b => match sign b with Lt => PInf | _ => NInf end
  | PInf, PInf | PInf, NInf | NInf, PInf | NInf, NInf => NaN
  end.

(** [np.maximum] and [np.minimum]: NaN propagates. *)
Definition maximum (x y : float) : float :=
  match x, y with
  | NaN, _ | _, NaN => NaN
  | PInf, _ | _, PInf => PInf
  | NInf, z | z, NInf => z
  | Fin a, Fin b => if Qle_bool a b then Fin b else Fin a
  end.

Definition minimum (x y : float) : float :=
  match x, y with
  | NaN, _ | _, NaN => NaN
  | NInf, _ | _, NInf => NInf
  | PInf, z | z, PInf => z
  | Fin a, Fin b => if Qle_bool a b then Fin a else Fin b
  end.

(** [np.clip(x, lo, hi)] is [minimum(maximum(x, lo), hi)]. *)
Definition clip (lo hi x : float) : float := minimum (maximum x lo) hi.



Definition sum (l : list float) : float := fold_left add l zero.

End Float.

Import Float.

Local Open Scope nat_scope.

(** ** Exceptions and outcomes *)

Inductive exn : Type :=
| ValueError
| AssertionError
| IndexError.

Inductive outcome (A : Type) : Type :=
| Return (a : A)
| Raise (e : exn).

Arguments Return {A} a.
Arguments Raise {A} e.

(** ** Driver configuration: the entries of [args] the driver reads *)

Record Args : Type := mkArgs {
  repeated_training : bool;
  items_per_creator_arg : Z;
  num_creators_arg : Z;
  startup_iters : Z;
  new_items_per_iter : Z;
  learning_rate_arg : float
}.

(** The value handed to [set_num_items_per_iter]: the string ["all"] or a
    count. *)
Inductive rec_size : Type :=
| All
| Count (n : Z).

(** [calc_startup_rec_size], lines 307-316. *)
Definition calc_startup_rec_size (args : Args) : rec_size :=
  if repeated_training args then All
  else
    let total_items_in_startup :=
      ((items_per_creator_arg args * num_creators_arg args) * startup_iters args)%Z in
    Count (total_items_in_startup + new_items_per_iter args)%Z.

(** ** Two-dimensional arrays

    A 2-D array carries its shape, as NumPy's does: an array of shape
    [(0, n)] and one of shape [(n, 0)] are different values. *)

Record ndarray : Type := mkArr {
  shape0 : nat;
  shape1 : nat;
  rows : list (list float)
}.

Definition wf (a : ndarray) : Prop :=
  length (rows a) = shape0 a /\ Forall (fun r => length r = shape1 a) (rows a).

Definition full (x : float) (r c : nat) : ndarray :=
  mkArr r c (repeat (repeat x c) r).

(** [np.zeros((r, c))]. *)
Definition zeros (r c : nat) : ndarray := full zero r c.

(** [a[i, :]]. *)
Definition row (a : ndarray) (i : nat) : list float := nth i (rows a) [].

Definition column (a : ndarray) (j : nat) : list float :=
  map (fun r => nth j r zero) (rows a).

(** [a.T]. *)
Definition transpose (a : ndarray) : ndarray :=
  mkArr (shape1 a) (shape0 a) (map (column a) (seq 0 (shape1 a))).

Definition map_array (f : float -> float) (a : ndarray) : ndarray :=
  mkArr (shape0 a) (shape1 a) (map (map f) (rows a)).

(** [a.sum(axis=1)]. *)
Definition sum_axis1 (a : ndarray) : list float := map Float.sum (rows a).

(** [a / s[:, np.newaxis]]: every row divided by its own entry of [s]. *)
Definition divide_rows (a : ndarray) (s : list float) : ndarray :=
  mkArr (shape0 a) (shape1 a)
        (map (fun rs => map (fun x => div x (snd rs)) (fst rs)) (combine (rows a) s)).

(** A Python index into a sequence of length [n]: negative indices count
    from the end, anything outside [[-n, n)] is an [IndexError]. *)
Definition norm_index (n : nat) (i : Z) : option nat :=
  if ((0 <=? i) && (i <? Z.of_nat n))%Z then Some (Z.to_nat i)
  else if ((- Z.of_nat n <=? i) && (i <? 0))%Z then Some (Z.to_nat (Z.of_nat n + i))
  else None.

Fixpoint norm_indices (n : nat) (ids : list Z) : option (list nat) :=
  match ids with
  | [] => Some []
  | i :: tl =>
      match norm_index n i, norm_indices n tl with
      | Some p, Some ps => Some (p :: ps)
      | _, _ => None
      end
  end.

(** [a[:, ids]] for indices already normalised. *)
Definition take_columns (a : ndarray) (ids : list nat) : ndarray :=
  mkArr (shape0 a) (length ids)
        (map (fun r => map (fun j => nth j r zero) ids) (rows a)).

Fixpoint add_rows (r v : list float) : list float :=
  match r, v with
  | x :: r', y :: v' => add x y :: add_rows r' v'
  | _, _ => r
  end.

Fixpoint update_nth (A : Type) (f : A -> A) (i : nat) (l : list A) : list A :=
  match l, i with
  | [], _ => []
  | x :: tl, O => f x :: tl
  | x :: tl, S i' => x :: update_nth f i' tl
  end.

(** [np.add.at(a, (idx, slice(None)), v)]: for every position [k], row
    [idx[k]] of [a] receives row [k] of [v]; repeated indices accumulate. *)
Fixpoint add_at_rows (data : list (list float)) (idx : list nat)
         (v : list (list float)) : list (list float) :=
  match idx, v with
  | i :: idx', w :: v' => add_at_rows (update_nth (fun r => add_rows r w) i data) idx' v'
  | _, _ => data
  end.

Definition add_at (a : ndarray) (idx : list nat) (v : ndarray) : outcome ndarray :=
  if negb (forallb (fun i => i <? shape0 a) idx) then Raise IndexError
  else if shape1 v =? shape1 a then
    Return (mkArr (shape0 a) (shape1 a) (add_at_rows (rows a) idx (rows v)))
  else if shape1 v =? 1 then
    Return (mkArr (shape0 a) (shape1 a)
                  (add_at_rows (rows a) idx
                               (map (fun w => repeat (hd zero w) (shape1 a)) (rows v))))
  else Raise ValueError.

(** [a[start:stop, :] = v]: the slice is cut to the array, and [v] must
    have as many rows as the slice or a single row to broadcast. *)
Definition assign_rows (a : ndarray) (start stop : nat) (v : list (list float))
  : outcome ndarray :=
  let lo := Nat.min start (shape0 a) in
  let len := Nat.min stop (shape0 a) - lo in
  if length v =? len then
    Return (mkArr (shape0 a) (shape1 a)
                  (firstn lo (rows a) ++ v ++ skipn (lo + len) (rows a)))
  else if length v =? 1 then
    Return (mkArr (shape0 a) (shape1 a)
                  (firstn lo (rows a) ++ repeat (hd [] v) len ++ skipn (lo + len) (rows a)))
  else Raise ValueError.

(** [np.nonzero(mask)[0]]. *)
Definition nonzero (mask : list bool) : list nat :=
  map fst (filter snd (combine (seq 0 (length mask)) mask)).

(** [np.repeat(l, k)]. *)
Definition np_repeat (l : list nat) (k : nat) : list nat :=
  flat_map (fun c => repeat c k) l.

(** ** The random generator

    [trecs.random.Generator] and NumPy's [default_rng] are external: the
    draws are oracles that thread the generator's state.  [binomial g p n]
    is [rng.binomial(1, p, n)] and [beta g a b u n] is
    [rng.beta(a, b, size=(u, n))].

    [rng.dirichlet(alpha, size=size)] checks its concentration before it
    samples and raises [ValueError] when the check fails:
    [dirichlet_accepts alpha] is that check, and [dirichlet g alpha size]
    is the sample drawn once the check has passed. *)

Record Generator : Type := mkGenerator {
  gstate : Type;
  binomial : gstate -> Q -> nat -> list bool * gstate;
  dirichlet_accepts : list float -> bool;
  dirichlet : gstate -> list float -> nat -> list (list float) * gstate;
  beta : gstate -> ndarray -> ndarray -> nat -> nat -> ndarray * gstate
}.

(** A concentration below zero: a negative finite value or minus
    infinity.  NaN compares false with everything. *)
Definition negative (x : float) : bool :=
  match x with
  | Fin q => negb (Qle_bool 0 q)
  | NInf => true
  | _ => false
  end.

(** [rng.dirichlet(alpha, size=size)], check included.  A refused
    concentration leaves the generator where it was. *)
Definition checked_dirichlet (G : Generator) (g : gstate G) (alpha : list float)
           (size : nat) : outcome (list (list float)) * gstate G :=
  if dirichlet_accepts G alpha then
    let (draw, g') := dirichlet G g alpha size in (Return draw, g')
  else (Raise ValueError, g).

(** What every generator guarantees: the shape of a draw, the two
    degenerate Bernoulli trials, and that a concentration with a negative
    entry is refused. *)
Record lawful (G : Generator) : Prop := mkLawful {
  binomial_length : forall g p n, length (fst (binomial G g p n)) = n;
  binomial_sure : forall g p n, (p == 1)%Q ->
      fst (binomial G g p n) = repeat true n;
  binomial_never : forall g p n, (p == 0)%Q ->
      fst (binomial G g p n) = repeat false n;
  dirichlet_refuses : forall alpha,
      existsb negative alpha = true -> dirichlet_accepts G alpha = false;
  dirichlet_shape : forall g alpha size,
      length (fst (dirichlet G g alpha size)) = size /\
      Forall (fun r => length r = length alpha) (fst (dirichlet G g alpha size));
  beta_shape : forall g a b u n,
      shape0 (fst (beta G g a b u n)) = u /\
      shape1 (fst (beta G g a b u n)) = n /\
      wf (fst (beta G g a b u n))
}.

Section Creators.

Variable G : Generator.

(** ** [ChaneyCreators]

    [ordered_creator_ids] is a float array in the source; it only ever
    holds the creator indices [np.nonzero] returns, which the cast
    [astype(int)] gives back unchanged, so it is a list of naturals. *)
Record ChaneyCreators : Type := mkCreators {
  items_per_creator : Z;
  learning_rate : float;
  actual_creator_profiles : ndarray;
  creation_probability : Q;
  rng : gstate G;
  ordered_creator_ids : list nat
}.

Definition set_generated (self : ChaneyCreators) (g : gstate G) (ids : list nat)
  : ChaneyCreators :=
  mkCreators (items_per_creator self) (learning_rate self)
             (actual_creator_profiles self) (creation_probability self) g ids.

Definition set_profiles (self : ChaneyCreators) (p : ndarray) : ChaneyCreators :=
  mkCreators (items_per_creator self) (learning_rate self) p
             (creation_probability self) (rng self) (ordered_creator_ids self).

(** The concentration of the draw for creator [c], line 81:
    [self.actual_creator_profiles[c, :] * 0.1]. *)
Definition concentration (profiles : ndarray) (c : nat) : list float :=
  map (fun x => mul x (Fin (1 # 10))) (row profiles c).

(** The loop of lines 78-82.  The Dirichlet draw is evaluated before the
    slice assignment, so a failed assignment still consumes the draw; a
    draw the generator refuses ends the loop with its [ValueError]. *)
Fixpoint fill_items (ipc : nat) (profiles : ndarray) (chosen_profiles : list nat)
         (idx : nat) (g : gstate G) (items : ndarray) : outcome ndarray * gstate G :=
  match chosen_profiles with
  | [] => (Return items, g)
  | c :: rest =>
      let next_idx := (idx + 1) * ipc in
      match checked_dirichlet G g (concentration profiles c) ipc with
      | (Raise e, g') => (Raise e, g')
      | (Return draw, g') =>
          match assign_rows items idx next_idx draw with
          | Return items' => fill_items ipc profiles rest (S idx) g' items'
          | Raise e => (Raise e, g')
          end
      end
  end.

(** [ChaneyCreators.generate_items], lines 61-83.  The object is returned
    in both outcomes: what was assigned before an exception stays
    assigned.  A probability outside [[0, 1]] is refused by [binomial]
    before anything is drawn; a negative [items_per_creator] is refused
    by [np.repeat] or, at the latest, by [np.zeros], after the mask has
    been drawn and before the id sequence is written. *)
Definition generate_items (self : ChaneyCreators)
  : outcome ndarray * ChaneyCreators :=
  let profiles := actual_creator_profiles self in
  let num_creators := shape0 profiles in
  let num_attrs := shape1 profiles in
  let p := creation_probability self in
  if negb (Qle_bool 0 p && Qle_bool p 1) then (Raise ValueError, self)
  else
    let (creator_mask, g1) := binomial G (rng self) p num_creators in
    if (items_per_creator self <? 0)%Z then
      (Raise ValueError, set_generated self g1 (ordered_creator_ids self))
    else
      let ipc := Z.to_nat (items_per_creator self) in
      let chosen_profiles := nonzero creator_mask in
      let ids := ordered_creator_ids self ++ np_repeat chosen_profiles ipc in
      let items := zeros (ipc * num_creators) num_attrs in
      let (filled, g2) := fill_items ipc profiles chosen_profiles 0 g1 items in
      (match filled with
       | Return items' => Return (transpose items')
       | Raise e => Raise e
       end,
       set_generated self g2 ids).

(** Lines 98-107: the assertion, the index look-ups and [np.add.at]. *)
Definition accumulate (self : ChaneyCreators) (interactions : list (list Z))
           (items : ndarray) : outcome ndarray :=
  if negb (length (ordered_creator_ids self) =? shape1 items) then
    Raise AssertionError
  else
    let item_ids := concat interactions in
    match norm_indices (length (ordered_creator_ids self)) item_ids with
    | None => Raise IndexError
    | Some pos =>
        let creators_to_update :=
          map (fun k => nth k (ordered_creator_ids self) 0) pos in
        let weighted_items :=
          transpose (map_array (mul (learning_rate self)) (take_columns items pos)) in
        add_at (actual_creator_profiles self) creators_to_update weighted_items
    end.

(** Lines 109-112: renormalise, then clip. *)
Definition renormalize (a : ndarray) : ndarray := divide_rows a (sum_axis1 a).

Definition clip_profiles (a : ndarray) : ndarray :=
  map_array (clip (Fin (1 # 10000)) (Fin 1)) a.

(** [ChaneyCreators.update_profiles], lines 85-112.  Every exception is
    raised before the profiles are written. *)
Definition update_profiles (self : ChaneyCreators) (interactions : list (list Z))
           (items : ndarray) : outcome unit * ChaneyCreators :=
  match accumulate self interactions items with
  | Raise e => (Raise e, self)
  | Return added =>
      (Return tt, set_profiles self (clip_profiles (renormalize added)))
  end.

(** [init_sim_state], lines 273-305: the creators the driver builds.
    [rng] is the stream the driver makes from [args["seed"]] (line 572)
    and passes to every [run_*_sim]; [init_sim_state] hands it to the
    interleaving function only.  The creators are built without a seed
    (lines 285-290), so [ChaneyCreators.__init__] makes
    [Generator(seed=self.seed)] with no seed (line 58): their generator
    starts from the operating system's entropy, a state [entropy] that
    neither the seed nor the configuration fixes. *)
Definition init_sim_state (creator_profiles : ndarray) (args : Args)
           (rng entropy : gstate G) : ChaneyCreators :=
  mkCreators (items_per_creator_arg args) (learning_rate_arg args)
             creator_profiles 1%Q entropy [].

(** The creator objects a run can reach, with the number of
    [generate_items] calls made on them: the driver's object, then any
    interleaving of the two methods on any arguments. *)
Inductive reachable (creator_profiles : ndarray) (args : Args)
  : nat -> ChaneyCreators -> Prop :=
| reach_init : forall rng entropy,
    reachable creator_profiles args 0
              (init_sim_state creator_profiles args rng entropy)
| reach_generate : forall n self,
    reachable creator_profiles args n self ->
    reachable creator_profiles args (S n) (snd (generate_items self))
| reach_update : forall n self interactions items,
    reachable creator_profiles args n self ->
    reachable creator_profiles args n (snd (update_profiles self interactions items)).

End Creators.

(** ** The scoring function of the ideal recommender *)

Definition dot (u v : list float) : float :=
  Float.sum (map (fun xy => mul (fst xy) (snd xy)) (combine u v)).

(** [a @ b]. *)
Definition matmul (a b : ndarray) : outcome ndarray :=
  if shape1 a =? shape0 b then
    Return (mkArr (shape0 a) (shape1 b)
                  (map (fun r => map (fun j => dot r (column b j)) (seq 0 (shape1 b)))
                       (rows a)))
  else Raise ValueError.

(** [np.hstack((a, b))]. *)
Definition hstack (a b : ndarray) : outcome ndarray :=
  if shape0 a =? shape0 b then
    Return (mkArr (shape0 a) (shape1 a + shape1 b)
                  (map (fun rs => fst rs ++ snd rs) (combine (rows a) (rows b))))
  else Raise ValueError.

(** [np.array([]).reshape((r, c))]: there is nothing to reshape unless
    the target has no entry either. *)
Definition reshape_empty (r c : nat) : outcome ndarray :=
  if r * c =? 0 then Return (zeros r c) else Raise ValueError.

(** [a[:r, :c]]. *)
Definition slice (a : ndarray) (r c : nat) : ndarray :=
  mkArr (Nat.min r (shape0 a)) (Nat.min c (shape1 a))
        (map (firstn c) (firstn r (rows a))).

Section IdealScore.

Variable G : Generator.

(** [chaney_utils.mu_sigma_to_alpha_beta] is not part of these sources;
    the scoring function only passes its result on to the generator. *)
Variable mu_sigma_to_alpha_beta : ndarray -> float -> ndarray * ndarray.

Variable sigma : float.
Variable num_items_per_iter : Z.

(** The variables the closure captures and writes. *)
Record ScoreState : Type := mkScoreState {
  true_user_item_utils : option ndarray;
  generator : gstate G
}.

(** [model_score_fn], lines 183-202. *)
Definition model_score_fn (st : ScoreState) (user_attrs item_attrs : ndarray)
  : outcome ndarray * ScoreState :=
  let num_users := shape0 user_attrs in
  let num_items := shape1 item_attrs in
  match (match true_user_item_utils st with
         | None => reshape_empty num_users num_items
         | Some utils => Return utils
         end) with
  | Raise e => (Raise e, st)
  | Return utils =>
      if (Z.of_nat (shape1 item_attrs) =? num_items_per_iter)%Z then
        match matmul user_attrs item_attrs with
        | Raise e => (Raise e, mkScoreState (Some utils) (generator st))
        | Return mean =>
            let true_utils_mean :=
              map_array (fun x => maximum x (Fin (1 # 1000000000))) mean in
            let (user_alphas, user_betas) :=
              mu_sigma_to_alpha_beta true_utils_mean sigma in
            let (true_utility, g') :=
              beta G (generator st) user_alphas user_betas num_users num_items in
            match hstack utils true_utility with
            | Raise e => (Raise e, mkScoreState (Some utils) g')
            | Return utils' =>
                (Return (map_array (fun x => mul x NInf)
                                   (full one (shape0 utils') (shape1 utils'))),
                 mkScoreState (Some utils') g')
            end
        end
      else if (num_users =? shape0 utils) && (num_items =? shape1 utils) then
        (Return (slice utils num_users num_items),
         mkScoreState (Some utils) (generator st))
      else (Raise AssertionError, mkScoreState (Some utils) (generator st))
  end.

End IdealScore.

(** ** The popularity recommender ([src/popularity.py]) *)

(** NumPy's process-wide [RandomState], the one [np.random.choice] draws
    from: a tape of uniform samples and the position reached on it. *)
Record RandomState : Type := mkRandomState {
  tape : nat -> Q;
  cursor : nat
}.

(** Every sample of the tape lies in [[0, 1)], as [random_sample] returns. *)
Definition uniform_tape (g : RandomState) : Prop :=
  forall i, (0 <= tape g i)%Q /\ (tape g i < 1)%Q.

(** Two states that yield the same next [n] samples. *)
Definition agree_on (n : nat) (g1 g2 : RandomState) : Prop :=
  forall i, i < n -> tape g1 (cursor g1 + i) = tape g2 (cursor g2 + i).

(** [r.argsort()] returns the positions of [r] in increasing order of
    value.  NumPy's default sort is not stable: in which order the
    positions of equal values come is left to the algorithm.  The sort is
    therefore a parameter [argsort] of the recommender, and [sorts] is
    what every sort guarantees: a permutation of the positions along
    which the values never decrease. *)
Definition sorts (argsort : list Z -> list nat) : Prop :=
  forall r,
    Permutation (argsort r) (seq 0 (length r)) /\
    forall i j, i <= j -> j < length r ->
      (nth (nth i (argsort r) 0%nat) r 0 <= nth (nth j (argsort r) 0%nat) r 0)%Z.

Fixpoint insert_score (x : Z * nat) (l : list (Z * nat)) : list (Z * nat) :=
  match l with
  | [] => [x]
  | y :: tl => if (fst x <=? fst y)%Z then x :: l else y :: insert_score x tl
  end.

(** One sort among them, by insertion, used to run the model on rows of
    distinct values, where every sort gives the same answer. *)
Definition insertion_argsort (r : list Z) : list nat :=
  map snd (fold_right insert_score [] (combine r (seq 0 (length r)))).

Definition Qsum (l : list Q) : Q := fold_right Qplus 0%Q l.

(** [np.arange(1, n + 1)]. *)
Definition arange1 (n : nat) : list Q :=
  map (fun i => inject_Z (Z.of_nat i)) (seq 1 n).

Fixpoint cumsum_from (acc : Q) (l : list Q) : list Q :=
  match l with
  | [] => []
  | x :: tl => (acc + x)%Q :: cumsum_from (acc + x)%Q tl
  end.

(** [p.cumsum()]. *)
Definition cumsum (l : list Q) : list Q := cumsum_from 0%Q l.

(** [cdf.searchsorted(u, side='right')] on an increasing [cdf]: the
    number of entries that do not exceed [u]. *)
Definition searchsorted_right (cdf : list Q) (u : Q) : nat :=
  length (filter (fun c => Qle_bool c u) cdf).

(** The rank one uniform sample selects: [cdf = p.cumsum()],
    [cdf /= cdf[-1]], then the search. *)
Definition choice_index (p : list Q) (u : Q) : nat :=
  let cdf := cumsum p in
  searchsorted_right (map (fun c => c / last cdf 1)%Q cdf) u.

(** [np.random.choice(a, p=p, size=(nrows, ncols))] with the default
    [replace=True]: one uniform sample per entry, in row-major order, each
    looked up in the same cumulative distribution. *)
Definition choice (a : list nat) (p : list Q) (nrows ncols : nat) (g : RandomState)
  : outcome (list (list nat)) * RandomState :=
  if (length a =? 0) || negb (length p =? length a) then (Raise ValueError, g)
  else
    (Return (map (fun i =>
                    map (fun j =>
                           nth (choice_index p (tape g (cursor g + (i * ncols + j)))) a 0)
                        (seq 0 ncols))
                 (seq 0 nrows)),
     mkRandomState (tape g) (cursor g + nrows * ncols)).

(** The fields of the recommender [recommend] reads; [s_t] is the score
    matrix kept by the base class. *)
Record PopularityRecommender : Type := mkPopularity {
  num_users : nat;
  num_items : nat;
  s_t : list (list Z)
}.

(** [PopularityRecommender.recommend], lines 44-47, with [argsort] the
    sort [self.s_t.argsort()] runs.  No generator is passed in: the
    samples come from the process-wide state. *)
Definition recommend (argsort : list Z -> list nat)
           (self : PopularityRecommender) (k : nat) (g : RandomState)
  : outcome (list (list nat)) * RandomState :=
  match map argsort (s_t self) with
  | [] => (Raise IndexError, g)
  | rec0 :: _ =>
      let p := arange1 (num_items self) in
      choice rec0 (map (fun x => x / Qsum p)%Q p) (num_users self) k g
  end.

(** The linear rank weights: [triangle r] is [1 + 2 + ... + r]. *)
Definition triangle (r : nat) : Q := inject_Z (Z.of_nat (r * (r + 1) / 2)).

(** ** A concrete generator

    A linear congruential generator, used to run the model on inputs. *)
Module Lcg.

Definition modulus : Z := 2147483648.

Definition next (s : Z) : Z := ((1103515245 * s + 12345) mod modulus)%Z.

Definition uniform (s : Z) : Q := Qmake (s mod modulus) 2147483648.

Fixpoint bernoulli (s : Z) (p : Q) (n : nat) : list bool * Z :=
  match n with
  | O => ([], s)
  | S n' =>
      let s' := next s in
      let (tl, s'') := bernoulli s' p n' in
      (negb (Qle_bool p (uniform s')) :: tl, s'')
  end.

(** Every draw is the mean of the distribution. *)
Definition dirichlet_mean (s : Z) (alpha : list float) (size : nat)
  : list (list float) * Z :=
  (repeat (map (fun x => div x (Float.sum alpha)) alpha) size, next s).

Definition beta_half (s : Z) (a b : ndarray) (u n : nat) : ndarray * Z :=
  (full (Fin (1 # 2)) u n, next s).

(** The check of the concentration: no entry below zero. *)
Definition accepts (alpha : list float) : bool := negb (existsb negative alpha).

Definition gen : Generator :=
  mkGenerator bernoulli accepts dirichlet_mean beta_half.

(** A second generator, whose Dirichlet draws move with its state: the
    mean of the distribution of concentration [alpha + u], for the next
    uniform sample [u]. *)
Definition dirichlet_shifted (s : Z) (alpha : list float) (size : nat)
  : list (list float) * Z :=
  let shifted := map (add (Fin (uniform (next s)))) alpha in
  (repeat (map (fun x => div x (Float.sum shifted)) shifted) size, next s).

Definition shifted : Generator :=
  mkGenerator bernoulli accepts dirichlet_shifted beta_half.

End Lcg.

(** ** Predicates on profile rows *)




(** ** Inputs used below *)
Module Examples.

Definition q (n : Z) (d : positive) : float := Fin (Qmake n d).






(** One creator whose profile has a negative entry. *)
Definition negative_entry : ChaneyCreators Lcg.gen :=
  mkCreators Lcg.gen 1 (q 1 20) (mkArr 1 3 [[q 1 2; q (-1) 10; q 6 10]]) 1%Q 7%Z [].


(** Two creators over two attributes. *)
Definition two_profiles : ndarray :=
  mkArr 2 2 [[q 1 2; q 1 2]; [q 1 4; q 3 4]].

Definition two_creators (ipc : Z) (p : Q) : ChaneyCreators Lcg.gen :=
  mkCreators Lcg.gen ipc (q 1 20) two_profiles p 7%Z [].

Definition args (ipc : Z) : Args := mkArgs true ipc 2 5 2 (q 1 20).

(** The two creators after one step: a catalog of one item each, and
    two users who interacted with two items each. *)
Definition catalog : ndarray := mkArr 2 2 [[q 1 2; q 1 4]; [q 1 2; q 3 4]].

Definition with_catalog : ChaneyCreators Lcg.gen :=
  mkCreators Lcg.gen 1 (q 1 20) two_profiles 1%Q 7%Z [0; 1].

Definition clicks : list (list Z) := [[0; 1]; [1; -1]]%Z.

(** A cache of one utility for one user, and a one-item catalog. *)
Definition one_by_one (x : float) : ndarray := mkArr 1 1 [[x]].

Definition identity_params (m : ndarray) (s : float) : ndarray * ndarray := (m, m).

Definition cached : ScoreState Lcg.gen :=
  mkScoreState Lcg.gen (Some (one_by_one (q 1 2))) 7%Z.

(** Two items, the second one more popular, and one user. *)
Definition two_items : PopularityRecommender := mkPopularity 1 2 [[0%Z; 5%Z]].

Definition constant_tape (u : Q) : RandomState := mkRandomState (fun _ => u) 0.

(** A tape that starts like [constant_tape (9 # 10)] and differs from
    the third sample on. *)
Definition late_tape : RandomState :=
  mkRandomState (fun i => if i <? 2 then 9 # 10 else 1 # 10)%Q 0.

End Examples.

(** ** The user-side scoring functions *)

(** NumPy's broadcasting of one dimension against another. *)
Definition broadcast_dim (a b : nat) : option nat :=
  if a =? b then Some a
  else if a =? 1 then Some b
  else if b =? 1 then Some a
  else None.

(** The entry an operand contributes at [(i, j)] of a broadcast result:
    a dimension of size one is read at 0. *)
Definition entry (a : ndarray) (i j : nat) : float :=
  nth (if shape1 a =? 1 then 0 else j)
      (nth (if shape0 a =? 1 then 0 else i) (rows a) []) zero.

(** [a * b] on two 2-D arrays. *)
Definition multiply (a b : ndarray) : outcome ndarray :=
  match broadcast_dim (shape0 a) (shape0 b), broadcast_dim (shape1 a) (shape1 b) with
  | Some r, Some c =>
      Return (mkArr r c
                (map (fun i => map (fun j => mul (entry a i j) (entry b i j))
                                   (seq 0 c))
                     (seq 0 r)))
  | _, _ => Raise ValueError
  end.

(** [a[:, -n:]]: the last [n] columns.  [-0] is [0]: for [n = 0] the
    slice is the whole array. *)
Definition last_columns (a : ndarray) (n : nat) : ndarray :=
  let start := if n =? 0 then 0 else shape1 a - n in
  mkArr (shape0 a) (shape1 a - start) (map (skipn start) (rows a)).

(** What the user-side function of the ideal recommender yields: the
    known utilities, the [TypeError] of subscripting the unset cache, or
    the [ValueError] of a product that does not broadcast. *)
Inductive user_score : Type :=
| KnownUtility (known : ndarray)
| UserTypeError
| UserValueError.

Section UserScores.

Variable G : Generator.
Variable mu_sigma_to_alpha_beta : ndarray -> float -> ndarray * ndarray.
Variable sigma : float.

(** The pair [alpha, beta] that [mu_sigma_to_alpha_beta(mu_n, sigma)]
    gives for the scalar [mu_n]; the generator broadcasts the two scalars
    to the requested size. *)
Variable alpha : float.
Variable beta' : float.

(** The inner [user_score_fn] of [ideal_content_score_fns], lines
    204-220.  The share of utility known is drawn before the cache is
    read. *)
Definition ideal_user_score_fn (st : ScoreState G)
           (user_profiles item_attributes : ndarray) : user_score * ScoreState G :=
  let num_items := shape1 item_attributes in
  let num_users := shape0 user_profiles in
  let (perc_util_known, g') :=
    beta G (generator st) (full alpha num_users num_items)
         (full beta' num_users num_items) num_users num_items in
  let st' := mkScoreState G (true_user_item_utils st) g' in
  match true_user_item_utils st with
  | None => (UserTypeError, st')
  | Some utils =>
      let true_utility := last_columns utils num_items in
      match multiply true_utility perc_util_known with
      | Return known_utility => (KnownUtility known_utility, st')
      | Raise _ => (UserValueError, st')
      end
  end.

(** [score_fn], the function [user_score_fn] returns, lines 226-239. *)
Definition score_fn (g : gstate G) (user_profiles item_attributes : ndarray)
  : outcome ndarray * gstate G :=
  let num_items := shape1 item_attributes in
  let num_users := shape0 user_profiles in
  let (perc_util_known, g1) :=
    beta G g (full alpha num_users num_items)
         (full beta' num_users num_items) num_users num_items in
  match matmul user_profiles item_attributes with
  | Raise e => (Raise e, g1)
  | Return mean =>
      let true_utils_mean :=
        map_array (fun x => maximum x (Fin (1 # 1000000000))) mean in
      let (user_alphas, user_betas) :=
        mu_sigma_to_alpha_beta true_utils_mean sigma in
      let (true_utility, g2) :=
        beta G g1 user_alphas user_betas num_users num_items in
      (multiply true_utility perc_util_known, g2)
  end.

(** ** [sample_users_and_creators]

    [gen_social_network] (chaney_utils) is not part of these sources. *)
Variable network : Type.
Variable gen_social_network : ndarray -> network.

(** [rng.dirichlet(alpha, size=size)] as a 2-D array, for a
    concentration the generator accepts. *)
Definition dirichlet_array (g : gstate G) (concentration : list float) (size : nat)
  : ndarray * gstate G :=
  let (draw, g') := dirichlet G g concentration size in
  (mkArr size (length concentration) draw, g').

Record Samples : Type := mkSamples {
  users : list ndarray;
  user_targets : list ndarray;
  creators : list ndarray;
  social_networks : list network
}.

(** The loop of lines 253-268 over the simulation indices. *)
Fixpoint sample_simulations (user_params user_params_target : list (list float))
         (num_users num_creators num_attrs : nat) (sims : list nat)
         (g : gstate G) : Samples * gstate G :=
  match sims with
  | [] => (mkSamples [] [] [] [], g)
  | sim_index :: rest =>
      let (user_prefs, g1) :=
        dirichlet_array g (nth sim_index user_params []) num_users in
      let (user_prefs_target, g2) :=
        dirichlet_array g1 (nth sim_index user_params_target []) num_users in
      let (creator_attrs, g3) :=
        dirichlet_array g2 (map (fun x => mul x (Fin 10)) (repeat one num_attrs))
                        num_creators in
      let (later, g4) :=
        sample_simulations user_params user_params_target
                           num_users num_creators num_attrs rest g3 in
      (mkSamples (user_prefs :: users later)
                 (user_prefs_target :: user_targets later)
                 (creator_attrs :: creators later)
                 (gen_social_network user_prefs :: social_networks later),
       g4)
  end.

(** [sample_users_and_creators], lines 243-271. *)
Definition sample_users_and_creators (g : gstate G)
           (num_users num_creators num_attrs num_sims : nat)
  : Samples * gstate G :=
  let (draw, g1) := dirichlet G g (repeat one num_attrs) num_sims in
  let user_params := map (map (fun x => mul x (Fin 10))) draw in
  let (draw_target, g2) := dirichlet G g1 (repeat one num_attrs) num_sims in
  let user_params_target := map (map (fun x => mul x (Fin 10))) draw_target in
  sample_simulations user_params user_params_target
                     num_users num_creators num_attrs (seq 0 num_sims) g2.

End UserScores.

(** ** [CreatorItemHomogenization.measure] *)

(** What the measurement reads of the recommender. *)
Record RecommenderView : Type := mkView {
  creator_profiles_view : ndarray;
  items_num_items : nat;
  actual_item_attributes : ndarray
}.

Inductive measurement : Type :=
| Observed (value : option float)
| MeasureAssertionError
| MeasureZeroDivisionError.

(** [m[-n:, :]] for a positive [n]. *)
Definition last_rows (m : list (list float)) (n : nat) : list (list float) :=
  skipn (length m - n) m.

Section Homogenization.

(** [pdist(new_items).mean()] is SciPy's. *)
Variable pdist_mean : list (list float) -> float.

(** [measure], lines 122-134. *)
Definition homogenization_measure (recommender : RecommenderView) : measurement :=
  let num_creators := shape0 (creator_profiles_view recommender) in
  if items_num_items recommender =? 0 then Observed None
  else if num_creators =? 0 then MeasureZeroDivisionError
  else if negb (items_num_items recommender mod num_creators =? 0) then
    MeasureAssertionError
  else
    let new_items :=
      last_rows (rows (transpose (actual_item_attributes recommender)))
                num_creators in
    Observed (Some (pdist_mean new_items)).

End Homogenization.

(** ** [construct_metrics] *)

From Stdlib Require String.
Import String.StringSyntax.

Section Metrics.

Local Open Scope string_scope.

(** The values passed as keyword arguments. *)
Variable value : Type.

Inductive metric : Type :=
| MeanInteractionDistance (pairs : value)
| MeanDistanceSimUsers (ideal_interactions ideal_item_attrs : value)
| InteractionTracker
| RMSEMeasurement
| PredictedTargetSimilarity (target_prefs : value)
| ActualTargetSimilarity (target_prefs : value)
| ActualUserProfiles
| TargetUserProfiles
| MostPrefferedAttributeChosen
| AverageUserEntropy
| AveragePredictedUserEntropy
| InteractionSpread (pairs : value)
| AverageFeatureScoreRange
| InteractionSimilarity (pairs : value)
| PreferenceChangeL2Norm.

Inductive constructed : Type :=
| Metrics (metrics : list metric)
| KeyError (key : String.string).

(** [kwargs[key]]. *)
Definition kwarg (kwargs : list (String.string * value)) (key : String.string)
  : option value :=
  match find (fun kv => String.eqb (fst kv) key) kwargs with
  | Some kv => Some (snd kv)
  | None => None
  end.

Definition with_kwarg (kwargs : list (String.string * value)) (key : String.string)
           (build : value -> constructed) : constructed :=
  match kwarg kwargs key with
  | Some v => build v
  | None => KeyError key
  end.

(** One turn of the loop of lines 323-357: what the key appends. *)
Definition construct_metric (kwargs : list (String.string * value))
           (k : String.string) : constructed :=
  if String.eqb k "mean_item_dist" then
    with_kwarg kwargs "pairs" (fun p => Metrics [MeanInteractionDistance p])
  else if String.eqb k "sim_user_dist" then
    with_kwarg kwargs "ideal_interactions" (fun ii =>
    with_kwarg kwargs "ideal_item_attrs" (fun ia =>
      Metrics [MeanDistanceSimUsers ii ia]))
  else if String.eqb k "interaction_history" then Metrics [InteractionTracker]
  else if String.eqb k "rmse" then Metrics [RMSEMeasurement]
  else if String.eqb k "predicted_target_similarity" then
    with_kwarg kwargs "target_prefs" (fun t => Metrics [PredictedTargetSimilarity t])
  else if String.eqb k "actual_target_similarity" then
    with_kwarg kwargs "target_prefs" (fun t => Metrics [ActualTargetSimilarity t])
  else if String.eqb k "actual_user_profiles" then Metrics [ActualUserProfiles]
  else if String.eqb k "target_user_profiles" then Metrics [TargetUserProfiles]
  else if String.eqb k "most_preffered_attribute_chosen" then
    Metrics [MostPrefferedAttributeChosen]
  else if String.eqb k "avg_user_entropy" then Metrics [AverageUserEntropy]
  else if String.eqb k "avg_pred_user_entropy" then
    Metrics [AveragePredictedUserEntropy]
  else if String.eqb k "interaction_spread" then
    with_kwarg kwargs "pairs" (fun p => Metrics [InteractionSpread p])
  else if String.eqb k "afsr" then Metrics [AverageFeatureScoreRange]
  else if String.eqb k "interaction_similarity" then
    with_kwarg kwargs "pairs" (fun p => Metrics [InteractionSimilarity p])
  else if String.eqb k "pref_change_l2" then Metrics [PreferenceChangeL2Norm]
  else Metrics [].

(** [construct_metrics], lines 318-359: the first [KeyError] ends the
    loop. *)
Fixpoint construct_metrics (keys : list String.string)
         (kwargs : list (String.string * value)) : constructed :=
  match keys with
  | [] => Metrics []
  | k :: rest =>
      match construct_metric kwargs k with
      | KeyError key => KeyError key
      | Metrics m =>
          match construct_metrics rest kwargs with
          | KeyError key => KeyError key
          | Metrics ms => Metrics (m ++ ms)%list
          end
      end
  end.

(** The keys the chain of comparisons knows. *)
Definition metric_keys : list String.string :=
  ["mean_item_dist"; "sim_user_dist"; "interaction_history"; "rmse";
   "predicted_target_similarity"; "actual_target_similarity";
   "actual_user_profiles"; "target_user_profiles";
   "most_preffered_attribute_chosen"; "avg_user_entropy";
   "avg_pred_user_entropy"; "interaction_spread"; "afsr";
   "interaction_similarity"; "pref_change_l2"].

Definition known_key (k : String.string) : bool :=
  existsb (String.eqb k) metric_keys.

(** The keys whose metric is built without a keyword argument. *)
Definition plain_keys : list String.string :=
  ["interaction_history"; "rmse"; "actual_user_profiles";
   "target_user_profiles"; "most_preffered_attribute_chosen";
   "avg_user_entropy"; "avg_pred_user_entropy"; "afsr";
   "pref_change_l2"].

End Metrics.

(** ** Further inputs *)
Module Cases.

(** A cache of three utilities for one user. *)
Definition three_cached : ScoreState Lcg.gen :=
  mkScoreState Lcg.gen
    (Some (mkArr 1 3 [[Examples.q 1 2; Examples.q 1 3; Examples.q 1 4]])) 7%Z.

(** Two attributes, one user and one item. *)
Definition one_user : ndarray := mkArr 1 2 [[Examples.q 1 2; Examples.q 1 2]].
Definition one_item : ndarray := mkArr 2 1 [[Examples.q 1 4]; [Examples.q 3 4]].

(** A catalog of two batches of two items over two attributes. *)
Definition first_batch : ndarray :=
  mkArr 2 2 [[Examples.q 1 2; Examples.q 1 4]; [Examples.q 1 2; Examples.q 3 4]].
Definition second_batch : ndarray :=
  mkArr 2 2 [[Examples.q 1 3; Examples.q 1 5]; [Examples.q 2 3; Examples.q 4 5]].
Definition two_batches : ndarray :=
  mkArr 2 4 [[Examples.q 1 2; Examples.q 1 4; Examples.q 1 3; Examples.q 1 5];
             [Examples.q 1 2; Examples.q 3 4; Examples.q 2 3; Examples.q 4 5]].

Definition first_entry (m : list (list float)) : float := hd zero (hd [] m).

Local Open Scope string_scope.

(** The keyword arguments of the ideal runs: no ideal interactions. *)
Definition ideal_kwargs : list (String.string * nat) :=
  [("pairs", 1); ("target_prefs", 2)].

Definition all_kwargs : list (String.string * nat) :=
  [("pairs", 1); ("ideal_interactions", 3); ("ideal_item_attrs", 4);
   ("target_prefs", 2)].

Definition some_keys : list String.string :=
  ["rmse"; "no_such_metric"; "mean_item_dist"; "sim_user_dist"].

End Cases.

(** * Properties *)

(** ** Lists and arrays *)

Lemma nonzero_from : forall (mask : list bool) (start : nat),
  map fst (filter snd (combine (seq start (length mask)) mask))
  = map (fun i => start + i)
        (map fst (filter snd (combine (seq 0 (length mask)) mask))).
Proof.
  induction mask as [|b mask IH]; intros start; [reflexivity|].
  destruct b; simpl; rewrite (IH (S start)), (IH 1), !map_map.
  - f_equal; [lia|]. apply map_ext; intros i; lia.
  - apply map_ext; intros i; lia.
Qed.

Lemma nonzero_all : forall n, nonzero (repeat true n) = seq 0 n.
Proof.
  unfold nonzero. induction n as [|n IH]; [reflexivity|].
  simpl. f_equal. rewrite repeat_length in *.
  rewrite <- (repeat_length true n) at 1.
  rewrite nonzero_from, repeat_length, IH, <- seq_shift.
  apply map_ext. intros; lia.
Qed.

Lemma nonzero_none : forall n, nonzero (repeat false n) = [].
Proof.
  unfold nonzero. intros n. rewrite repeat_length.
  generalize 0. induction n as [|n IH]; intros s; simpl; auto.
Qed.

Lemma np_repeat_length : forall l k, length (np_repeat l k) = length l * k.
Proof.
  induction l as [|c l IH]; intros k; simpl; [reflexivity|].
  rewrite length_app, repeat_length, IH. reflexivity.
Qed.

Lemma count_occ_repeat_same : forall (c k : nat),
  count_occ Nat.eq_dec (repeat c k) c = k.
Proof.
  induction k as [|k IH]; simpl; [reflexivity|].
  destruct (Nat.eq_dec c c); congruence.
Qed.

Lemma count_occ_repeat_other : forall (c d k : nat),
  c <> d -> count_occ Nat.eq_dec (repeat c k) d = 0.
Proof.
  induction k as [|k IH]; intros Hne; simpl; [reflexivity|].
  destruct (Nat.eq_dec c d); [contradiction | auto].
Qed.

Lemma count_occ_np_repeat : forall l k c,
  count_occ Nat.eq_dec (np_repeat l k) c = count_occ Nat.eq_dec l c * k.
Proof.
  induction l as [|d l IH]; intros k c; simpl; [reflexivity|].
  rewrite count_occ_app, IH.
  destruct (Nat.eq_dec d c) as [->|Hne].
  - rewrite count_occ_repeat_same. simpl. reflexivity.
  - rewrite count_occ_repeat_other by assumption. reflexivity.
Qed.

Lemma count_occ_seq : forall n start c,
  start <= c < start + n -> count_occ Nat.eq_dec (seq start n) c = 1.
Proof.
  induction n as [|n IH]; intros start c Hc; [lia|].
  simpl. destruct (Nat.eq_dec start c) as [->|Hne].
  - f_equal. apply count_occ_not_In. rewrite in_seq. lia.
  - apply IH. lia.
Qed.

Lemma count_occ_concat_repeat : forall (l : list nat) n c,
  count_occ Nat.eq_dec (concat (repeat l n)) c = n * count_occ Nat.eq_dec l c.
Proof.
  induction n as [|n IH]; intros c; simpl; [reflexivity|].
  rewrite count_occ_app, IH. reflexivity.
Qed.

Lemma concat_repeat_snoc : forall (A : Type) (l : list A) n,
  concat (repeat l n) ++ l = concat (repeat l (S n)).
Proof.
  induction n as [|n IH]; simpl.
  - rewrite app_nil_r. reflexivity.
  - rewrite <- app_assoc, IH. reflexivity.
Qed.

(** ** [generate_items] *)

Section GenerateItems.

Variable G : Generator.
Hypothesis HG : lawful G.

(** What [generate_items] leaves in [ordered_creator_ids], whether it
    returns or raises in the loop. *)
Lemma generate_items_ids : forall (self : ChaneyCreators G),
  (0 <= creation_probability self)%Q -> (creation_probability self <= 1)%Q ->
  (0 <= items_per_creator self)%Z ->
  ordered_creator_ids (snd (generate_items self))
  = ordered_creator_ids self
    ++ np_repeat (nonzero (fst (binomial G (rng self) (creation_probability self)
                                         (shape0 (actual_creator_profiles self)))))
                 (Z.to_nat (items_per_creator self)).
Proof.
  intros self H0 H1 Hipc. unfold generate_items.
  apply Qle_bool_iff in H0. apply Qle_bool_iff in H1. rewrite H0, H1. simpl.
  destruct (binomial G _ _ _) as [mask g1]. simpl.
  destruct (Z.ltb_spec (items_per_creator self) 0) as [Hneg|_]; [lia|].
  destruct (fill_items _ _ _ _ _ _) as [filled g2]. reflexivity.
Qed.

Lemma generate_items_frame : forall (self : ChaneyCreators G),
  items_per_creator (snd (generate_items self)) = items_per_creator self /\
  creation_probability (snd (generate_items self)) = creation_probability self /\
  actual_creator_profiles (snd (generate_items self)) = actual_creator_profiles self /\
  learning_rate (snd (generate_items self)) = learning_rate self.
Proof.
  intros self. unfold generate_items.
  destruct (negb _); [simpl; auto|].
  destruct (binomial G _ _ _) as [mask g1].
  destruct (_ <? _)%Z; [simpl; auto|].
  destruct (fill_items _ _ _ _ _ _) as [filled g2]. simpl. auto.
Qed.

Lemma add_at_shape : forall a idx v added,
  add_at a idx v = Return added ->
  shape0 added = shape0 a /\ shape1 added = shape1 a.
Proof.
  intros a idx v added. unfold add_at.
  destruct (negb _); [discriminate|].
  destruct (_ =? _); [intros [= <-]; auto|].
  destruct (_ =? _); [intros [= <-]; auto | discriminate].
Qed.

Lemma update_profiles_frame : forall (self : ChaneyCreators G) interactions items,
  items_per_creator (snd (update_profiles self interactions items))
    = items_per_creator self /\
  creation_probability (snd (update_profiles self interactions items))
    = creation_probability self /\
  ordered_creator_ids (snd (update_profiles self interactions items))
    = ordered_creator_ids self /\
  shape0 (actual_creator_profiles (snd (update_profiles self interactions items)))
    = shape0 (actual_creator_profiles self) /\
  shape1 (actual_creator_profiles (snd (update_profiles self interactions items)))
    = shape1 (actual_creator_profiles self).
Proof.
  intros self interactions items. unfold update_profiles.
  destruct (accumulate self interactions items) as [added|e] eqn:Hacc; simpl; auto.
  unfold accumulate in Hacc.
  destruct (negb _); [discriminate|].
  destruct (norm_indices _ _); [|discriminate].
  apply add_at_shape in Hacc. tauto.
Qed.

(** The invariants of the creator object of a driver-built run. *)
Lemma reachable_invariant : forall profiles args n (self : ChaneyCreators G),
  (0 <= items_per_creator_arg args)%Z ->
  reachable profiles args n self ->
  items_per_creator self = items_per_creator_arg args /\
  creation_probability self = 1%Q /\
  shape0 (actual_creator_profiles self) = shape0 profiles /\
  ordered_creator_ids self
  = concat (repeat (np_repeat (seq 0 (shape0 profiles))
                              (Z.to_nat (items_per_creator_arg args))) n).
Proof.
  intros profiles args n self Hipc Hreach.
  induction Hreach as [g | n self Hreach [Hi [Hp [Hs Hids]]]
                      | n self interactions items Hreach [Hi [Hp [Hs Hids]]]].
  - simpl. auto.
  - destruct (generate_items_frame self) as [Fi [Fp [Fa _]]].
    rewrite Fi, Fp, Fa. repeat split; auto.
    rewrite generate_items_ids by (rewrite ?Hp, ?Hi; try lia; discriminate).
    rewrite (binomial_sure HG) by (rewrite Hp; reflexivity).
    rewrite nonzero_all, Hs, Hi, Hids. apply concat_repeat_snoc.
  - destruct (update_profiles_frame self interactions items) as [Fi [Fp [Fo [Fs _]]]].
    rewrite Fi, Fp, Fo, Fs. auto.
Qed.

End GenerateItems.

(** ** The concrete generator is lawful *)

Lemma lcg_uniform_range : forall s,
  (0 <= Lcg.uniform s)%Q /\ (Lcg.uniform s < 1)%Q.
Proof.
  intros s. unfold Lcg.uniform, Qle, Qlt. simpl.
  pose proof (Z.mod_pos_bound s Lcg.modulus eq_refl) as Hb.
  unfold Lcg.modulus in *. lia.
Qed.

Lemma lcg_bernoulli_length : forall n s p, length (fst (Lcg.bernoulli s p n)) = n.
Proof.
  induction n as [|n IH]; intros s p; simpl; [reflexivity|].
  specialize (IH (Lcg.next s) p).
  destruct (Lcg.bernoulli (Lcg.next s) p n) as [tl s'']. simpl in *. lia.
Qed.

Lemma lcg_bernoulli_sure : forall n s p,
  (p == 1)%Q -> fst (Lcg.bernoulli s p n) = repeat true n.
Proof.
  induction n as [|n IH]; intros s p Hp; simpl; [reflexivity|].
  specialize (IH (Lcg.next s) p Hp).
  destruct (Lcg.bernoulli (Lcg.next s) p n) as [tl s'']. simpl in *.
  f_equal; [|assumption].
  destruct (Qle_bool p (Lcg.uniform (Lcg.next s))) eqn:Hle; [|reflexivity].
  apply Qle_bool_iff in Hle.
  destruct (lcg_uniform_range (Lcg.next s)) as [_ Hlt]. rewrite Hp in Hle. lra.
Qed.

Lemma lcg_bernoulli_never : forall n s p,
  (p == 0)%Q -> fst (Lcg.bernoulli s p n) = repeat false n.
Proof.
  induction n as [|n IH]; intros s p Hp; simpl; [reflexivity|].
  specialize (IH (Lcg.next s) p Hp).
  destruct (Lcg.bernoulli (Lcg.next s) p n) as [tl s'']. simpl in *.
  f_equal; [|assumption].
  destruct (Qle_bool p (Lcg.uniform (Lcg.next s))) eqn:Hle; [reflexivity|].
  assert (Hge : (p <= Lcg.uniform (Lcg.next s))%Q).
  { destruct (lcg_uniform_range (Lcg.next s)) as [Hge _]. rewrite Hp. exact Hge. }
  apply Qle_bool_iff in Hge. congruence.
Qed.

Lemma full_wf : forall x r c, wf (full x r c).
Proof.
  intros x r c. split; simpl.
  - apply repeat_length.
  - apply Forall_forall. intros l Hl. apply repeat_spec in Hl. subst.
    apply repeat_length.
Qed.

Lemma lcg_lawful : lawful Lcg.gen.
Proof.
  constructor; simpl.
  - intros g p n. apply lcg_bernoulli_length.
  - intros g p n. apply lcg_bernoulli_sure.
  - intros g p n. apply lcg_bernoulli_never.
  - intros alpha Hneg. unfold Lcg.accepts. rewrite Hneg. reflexivity.
  - intros g alpha size. split.
    + apply repeat_length.
    + apply Forall_forall. intros r Hr. apply repeat_spec in Hr. subst.
      apply length_map.
  - intros g a b u n. repeat split; try apply full_wf.
Qed.

Lemma shifted_lawful : lawful Lcg.shifted.
Proof.
  constructor; simpl.
  - intros g p n. apply lcg_bernoulli_length.
  - intros g p n. apply lcg_bernoulli_sure.
  - intros g p n. apply lcg_bernoulli_never.
  - intros alpha Hneg. unfold Lcg.accepts. rewrite Hneg. reflexivity.
  - intros g alpha size. split.
    + apply repeat_length.
    + apply Forall_forall. intros r Hr. apply repeat_spec in Hr. subst.
      rewrite !length_map. reflexivity.
  - intros g a b u n. repeat split; try apply full_wf.
Qed.

(** ** Claims about the driver and [generate_items] *)

(** C8: [calc_startup_rec_size] answers ["all"] when [repeated_training]
    is set, and otherwise the items of the whole startup phase,
    [items_per_creator * num_creators * startup_iters], plus
    [new_items_per_iter]. *)
Theorem calc_startup_rec_size_spec : forall ipc nc si ni lr,
  calc_startup_rec_size (mkArgs true ipc nc si ni lr) = All /\
  calc_startup_rec_size (mkArgs false ipc nc si ni lr)
  = Count (ipc * nc * si + ni)%Z.
Proof.
  intros ipc nc si ni lr. split; reflexivity.
Qed.

(** C10: the driver builds its creators with [creation_probability] 1.0;
    on every creator object of such a run the mask selects all creators,
    every [generate_items] call appends [num_creators * items_per_creator]
    ids, and after [n] calls every creator id occurs [n * items_per_creator]
    times. *)
Theorem driver_creators_all_create :
  forall (G : Generator) (profiles : ndarray) (args : Args) (n : nat)
         (self : ChaneyCreators G),
  lawful G ->
  (0 <= items_per_creator_arg args)%Z ->
  reachable profiles args n self ->
  let ipc := Z.to_nat (items_per_creator_arg args) in
  let nc := shape0 profiles in
  creation_probability self = 1%Q /\
  fst (binomial G (rng self) (creation_probability self)
                (shape0 (actual_creator_profiles self))) = repeat true nc /\
  ordered_creator_ids (snd (generate_items self))
  = ordered_creator_ids self ++ np_repeat (seq 0 nc) ipc /\
  length (np_repeat (seq 0 nc) ipc) = nc * ipc /\
  length (ordered_creator_ids self) = n * (nc * ipc) /\
  (forall c, c < nc ->
             count_occ Nat.eq_dec (ordered_creator_ids self) c = n * ipc).
Proof.
  intros G profiles args n self HG Hipc Hreach ipc nc.
  destruct (reachable_invariant HG Hipc Hreach) as [Hi [Hp [Hs Hids]]].
  assert (Hlen : length (np_repeat (seq 0 nc) ipc) = nc * ipc).
  { rewrite np_repeat_length, length_seq. reflexivity. }
  repeat split.
  - exact Hp.
  - rewrite Hs. apply (binomial_sure HG). rewrite Hp. reflexivity.
  - rewrite generate_items_ids by (rewrite ?Hp, ?Hi; try lia; discriminate).
    rewrite (binomial_sure HG) by (rewrite Hp; reflexivity).
    rewrite nonzero_all, Hs, Hi. reflexivity.
  - exact Hlen.
  - rewrite Hids. fold nc ipc. clear Hids Hreach.
    induction n as [|n IH]; simpl; [reflexivity|].
    rewrite length_app, IH, Hlen. reflexivity.
  - intros c Hc. rewrite Hids, count_occ_concat_repeat, count_occ_np_repeat.
    rewrite count_occ_seq by lia. lia.
Qed.

Lemma driver_creators_all_create_witness :
  length (ordered_creator_ids
            (snd (generate_items
                    (init_sim_state Lcg.gen Examples.two_profiles (Examples.args 3)
                                    1234%Z 7%Z))))
  = 1 * (2 * 3).
Proof.
  refine (proj1 (proj2 (proj2 (proj2 (proj2
    (@driver_creators_all_create Lcg.gen Examples.two_profiles (Examples.args 3) 1 _
       lcg_lawful _ _)))))).
  - simpl. lia.
  - apply reach_generate. apply reach_init.
Defined.

Lemma transpose_full : forall x r c, transpose (full x r c) = full x c r.
Proof.
  intros x r c. unfold transpose, full. simpl. f_equal.
  assert (Hcol : forall j, j < c ->
            column (mkArr r c (repeat (repeat x c) r)) j = repeat x r).
  { intros j Hj. unfold column. simpl. clear -Hj.
    induction r as [|r IH]; simpl; [reflexivity|].
    rewrite IH. f_equal. apply nth_repeat_lt. exact Hj. }
  assert (Hgen : forall start, (forall j, start <= j < start + c ->
            column (mkArr r c (repeat (repeat x c) r)) j = repeat x r) ->
            map (column (mkArr r c (repeat (repeat x c) r))) (seq start c)
            = repeat (repeat x r) c).
  { generalize (column (mkArr r c (repeat (repeat x c) r))) as f.
    generalize c as m.
    induction m as [|m IH]; intros f start Hf; simpl; [reflexivity|].
    rewrite Hf by lia. f_equal. apply IH. intros j Hj. apply Hf. lia. }
  apply Hgen. intros j Hj. apply Hcol. lia.
Qed.

Lemma nonzero_length : forall mask, length (nonzero mask) <= length mask.
Proof.
  intros mask. unfold nonzero. rewrite length_map.
  etransitivity; [apply filter_length_le|].
  rewrite length_combine, length_seq. lia.
Qed.

Section GenerateItemsOutcomes.

Variable G : Generator.
Hypothesis HG : lawful G.

(** With no creator selected the batch is still allocated for all of
    them: [generate_items] returns the zero matrix untouched. *)
Lemma generate_items_never : forall (self : ChaneyCreators G),
  (creation_probability self == 0)%Q ->
  (0 <= items_per_creator self)%Z ->
  fst (generate_items self)
  = Return (zeros (shape1 (actual_creator_profiles self))
                  (Z.to_nat (items_per_creator self)
                   * shape0 (actual_creator_profiles self))) /\
  ordered_creator_ids (snd (generate_items self)) = ordered_creator_ids self.
Proof.
  intros self Hp Hipc. unfold generate_items.
  assert (H0 : Qle_bool 0 (creation_probability self) = true)
    by (apply Qle_bool_iff; rewrite Hp; discriminate).
  assert (H1 : Qle_bool (creation_probability self) 1 = true)
    by (apply Qle_bool_iff; rewrite Hp; discriminate).
  rewrite H0, H1. simpl.
  pose proof (binomial_never HG (rng self) (shape0 (actual_creator_profiles self)) Hp)
    as Hmask.
  destruct (binomial G _ _ _) as [mask g1]. simpl in Hmask. subst mask.
  destruct (Z.ltb_spec (items_per_creator self) 0) as [Hneg|_]; [lia|].
  rewrite nonzero_none. simpl. split.
  - unfold zeros. rewrite transpose_full. reflexivity.
  - apply app_nil_r.
Qed.



End GenerateItemsOutcomes.

(** C2: with an all-zero mask [generate_items] returns a batch of
    [items_per_creator * num_creators] columns and records no id, so the
    id sequence is shorter than the items returned, and the assertion of
    [update_profiles] on that catalog fails. *)
Theorem generate_items_ids_behind_batch :
  fst (generate_items (Examples.two_creators 1 0)) = Return (zeros 2 2) /\
  shape1 (zeros 2 2) = 2 /\
  length (ordered_creator_ids (snd (generate_items (Examples.two_creators 1 0)))) = 0 /\
  fst (update_profiles (snd (generate_items (Examples.two_creators 1 0))) []
                       (zeros 2 2))
  = Raise AssertionError.
Proof.
  repeat split; vm_compute; reflexivity.
Qed.

(** C3: two creators, both selected, two items each: the second slice
    assignment raises [ValueError]; the four ids were already recorded. *)
Theorem generate_items_two_per_creator_raises :
  fst (generate_items (Examples.two_creators 2 1)) = Raise ValueError /\
  ordered_creator_ids (snd (generate_items (Examples.two_creators 2 1)))
  = [0; 0; 1; 1].
Proof.
  split; vm_compute; reflexivity.
Qed.

(** C7: with [creation_probability] 0 no creator is selected, and the
    batch returned for two creators still has two columns, all zeros. *)
Theorem generate_items_empty_mask_pads :
  fst (generate_items (Examples.two_creators 1 0)) = Return (zeros 2 2) /\
  shape1 (zeros 2 2) = 2.
Proof.
  split; vm_compute; reflexivity.
Qed.

(** ** Rows of finite values *)


Lemma Qsum_map_div : forall qs s,
  ~ (s == 0)%Q -> (Qsum (map (fun x => x / s) qs) == Qsum qs / s)%Q.
Proof.
  induction qs as [|x qs IH]; intros s Hs; simpl.
  - field. exact Hs.
  - rewrite (IH s Hs). field. exact Hs.
Qed.



(** ** [update_profiles] *)

Lemma combine_map_self : forall (A B : Type) (f : A -> B) l,
  combine l (map f l) = map (fun x => (x, f x)) l.
Proof.
  induction l as [|x l IH]; simpl; [reflexivity|]. rewrite IH. reflexivity.
Qed.

Lemma clipped_rows : forall a,
  rows (clip_profiles (renormalize a))
  = map (fun r => map (clip (Fin (1 # 10000)) (Fin 1))
                      (map (fun x => div x (Float.sum r)) r))
        (rows a).
Proof.
  intros a. unfold clip_profiles, renormalize, divide_rows, sum_axis1. simpl.
  rewrite combine_map_self.
  induction (rows a) as [|r l IH]; simpl; [reflexivity|].
  rewrite <- IH. reflexivity.
Qed.










(** ** The scoring function of the ideal recommender *)

Lemma minus_infinity_full : forall r c,
  map_array (fun x => mul x NInf) (full one r c) = full NInf r c.
Proof.
  intros r c. unfold map_array, full. simpl. f_equal.
  rewrite map_repeat. f_equal. rewrite map_repeat. reflexivity.
Qed.

Lemma firstn_all_rows : forall (A : Type) (l : list (list A)) c,
  Forall (fun r => length r = c) l -> map (firstn c) l = l.
Proof.
  induction 1 as [|r l Hr _ IH]; simpl; [reflexivity|].
  rewrite IH. f_equal. rewrite <- Hr. apply firstn_all.
Qed.

Lemma slice_whole : forall a, wf a -> slice a (shape0 a) (shape1 a) = a.
Proof.
  intros [r c l] [Hr Hc]. simpl in *. unfold slice. simpl.
  rewrite !Nat.min_id. f_equal.
  rewrite <- Hr, firstn_all. apply firstn_all_rows. exact Hc.
Qed.

Section IdealScoreProperties.

Variable G : Generator.
Hypothesis HG : lawful G.
Variable params : ndarray -> float -> ndarray * ndarray.
Variable sigma : float.
Variable width : Z.

(** A call of batch width on a filled cache: the new utilities are
    stacked onto the cache and the answer is minus infinity over the
    whole stack. *)
Lemma model_score_fn_batch : forall (st : ScoreState G) ua ia c,
  true_user_item_utils st = Some c ->
  shape0 c = shape0 ua ->
  shape1 ua = shape0 ia ->
  Z.of_nat (shape1 ia) = width ->
  fst (model_score_fn params sigma width st ua ia)
  = Return (full NInf (shape0 c) (shape1 c + shape1 ia)) /\
  exists c',
    true_user_item_utils (snd (model_score_fn params sigma width st ua ia))
    = Some c' /\
    shape0 c' = shape0 c /\ shape1 c' = shape1 c + shape1 ia.
Proof.
  intros st ua ia c Hc Hrows Hinner Hwidth.
  unfold model_score_fn. rewrite Hc.
  apply Z.eqb_eq in Hwidth. rewrite Hwidth.
  unfold matmul. apply Nat.eqb_eq in Hinner. rewrite Hinner.
  destruct (params _ sigma) as [user_alphas user_betas].
  pose proof (beta_shape HG (generator st) user_alphas user_betas
                (shape0 ua) (shape1 ia)) as [Hb0 [Hb1 _]].
  destruct (beta G _ _ _ _ _) as [true_utility g']. simpl in Hb0, Hb1.
  unfold hstack. rewrite Hb0, Hrows, Nat.eqb_refl.
  rewrite minus_infinity_full. simpl. rewrite Hb1. split; [reflexivity|].
  eexists. split; [reflexivity|]. simpl. auto.
Qed.

(** C4: with a filled cache, two calls of width [num_items_per_iter] in
    a row both answer minus infinity in every entry; a call of any other
    width returns the cache unchanged when its shape is the cache's, and
    fails its assertion when the shapes differ. *)
Theorem model_score_fn_protocol : forall (g : gstate G) (c ua ia : ndarray),
  let st := mkScoreState G (Some c) g in
  (Z.of_nat (shape1 ia) = width ->
   shape0 c = shape0 ua -> shape1 ua = shape0 ia ->
   forall ua2 ia2,
   shape0 ua2 = shape0 ua -> shape1 ua2 = shape0 ia2 ->
   Z.of_nat (shape1 ia2) = width ->
   fst (model_score_fn params sigma width st ua ia)
   = Return (full NInf (shape0 ua) (shape1 c + shape1 ia)) /\
   fst (model_score_fn params sigma width
          (snd (model_score_fn params sigma width st ua ia)) ua2 ia2)
   = Return (full NInf (shape0 ua) (shape1 c + shape1 ia + shape1 ia2))) /\
  (Z.of_nat (shape1 ia) <> width ->
   wf c -> shape0 ua = shape0 c -> shape1 ia = shape1 c ->
   fst (model_score_fn params sigma width st ua ia) = Return c /\
   true_user_item_utils (snd (model_score_fn params sigma width st ua ia))
   = Some c /\
   generator (snd (model_score_fn params sigma width st ua ia)) = g) /\
  (Z.of_nat (shape1 ia) <> width ->
   shape0 ua <> shape0 c \/ shape1 ia <> shape1 c ->
   fst (model_score_fn params sigma width st ua ia) = Raise AssertionError /\
   true_user_item_utils (snd (model_score_fn params sigma width st ua ia))
   = Some c).
Proof.
  intros g c ua ia st. split; [|split].
  - intros Hwidth Hrows Hinner ua2 ia2 Hrows2 Hinner2 Hwidth2.
    destruct (@model_score_fn_batch st ua ia c eq_refl Hrows Hinner Hwidth)
      as [H1 [c1 [Hst1 [Hc0 Hc1]]]].
    split; [rewrite H1, Hrows; reflexivity|].
    destruct (@model_score_fn_batch
                (snd (model_score_fn params sigma width st ua ia)) ua2 ia2 c1 Hst1)
      as [H2 _]; try assumption.
    + rewrite Hc0, Hrows2. exact Hrows.
    + rewrite H2, Hc0, Hc1, Hrows. reflexivity.
  - intros Hwidth Hwf Hrows Hcols. unfold model_score_fn. simpl.
    apply Z.eqb_neq in Hwidth. rewrite Hwidth.
    rewrite Hrows, Hcols, !Nat.eqb_refl. simpl.
    rewrite slice_whole by exact Hwf. auto.
  - intros Hwidth Hshape. unfold model_score_fn. simpl.
    apply Z.eqb_neq in Hwidth. rewrite Hwidth.
    assert (Hne : (shape0 ua =? shape0 c) && (shape1 ia =? shape1 c) = false).
    { destruct Hshape as [H|H]; apply Nat.eqb_neq in H; rewrite H;
        [reflexivity | apply andb_false_r]. }
    rewrite Hne. simpl. auto.
Qed.

End IdealScoreProperties.

Lemma model_score_fn_protocol_witness :
  fst (model_score_fn Examples.identity_params (Examples.q 1 100) 1
         (snd (model_score_fn Examples.identity_params (Examples.q 1 100) 1
                 Examples.cached (Examples.one_by_one one) (Examples.one_by_one one)))
         (Examples.one_by_one one) (Examples.one_by_one one))
  = Return (full NInf 1 3) /\
  fst (model_score_fn Examples.identity_params (Examples.q 1 100) 2
         Examples.cached (Examples.one_by_one one) (Examples.one_by_one one))
  = Return (Examples.one_by_one (Examples.q 1 2)) /\
  fst (model_score_fn Examples.identity_params (Examples.q 1 100) 2
         Examples.cached (Examples.one_by_one one) (zeros 1 3))
  = Raise AssertionError.
Proof.
  split; [|split].
  - refine (proj2 (proj1 (@model_score_fn_protocol Lcg.gen lcg_lawful
              Examples.identity_params (Examples.q 1 100) 1 7%Z
              (Examples.one_by_one (Examples.q 1 2))
              (Examples.one_by_one one) (Examples.one_by_one one))
              eq_refl eq_refl eq_refl
              (Examples.one_by_one one) (Examples.one_by_one one)
              eq_refl eq_refl eq_refl)).
  - refine (proj1 (proj1 (proj2 (@model_score_fn_protocol Lcg.gen lcg_lawful
              Examples.identity_params (Examples.q 1 100) 2 7%Z
              (Examples.one_by_one (Examples.q 1 2))
              (Examples.one_by_one one) (Examples.one_by_one one)))
              _ _ eq_refl eq_refl)).
    + discriminate.
    + split; [reflexivity | repeat constructor].
  - refine (proj1 (proj2 (proj2 (@model_score_fn_protocol Lcg.gen lcg_lawful
              Examples.identity_params (Examples.q 1 100) 2 7%Z
              (Examples.one_by_one (Examples.q 1 2))
              (Examples.one_by_one one) (zeros 1 3)))
              _ _)).
    + discriminate.
    + right. discriminate.
Defined.

(** C4, refuted as stated: when the whole catalog is as wide as a batch
    (one cached item, [num_items_per_iter] 1), the full-width call is
    taken for a new batch: it answers minus infinity and stacks fresh
    utilities onto the cache instead of returning it. *)
Lemma model_score_fn_full_width_resampled :
  true_user_item_utils Examples.cached
  = Some (Examples.one_by_one (Examples.q 1 2)) /\
  fst (model_score_fn Examples.identity_params (Examples.q 1 100) 1
         Examples.cached (Examples.one_by_one one) (Examples.one_by_one one))
  = Return (mkArr 1 2 [[NInf; NInf]]) /\
  true_user_item_utils
    (snd (model_score_fn Examples.identity_params (Examples.q 1 100) 1
            Examples.cached (Examples.one_by_one one) (Examples.one_by_one one)))
  = Some (mkArr 1 2 [[Examples.q 1 2; Examples.q 1 2]]).
Proof.
  repeat split; vm_compute; reflexivity.
Qed.

(** ** The popularity recommender *)

Lemma Qsum_app : forall l1 l2, (Qsum (l1 ++ l2) == Qsum l1 + Qsum l2)%Q.
Proof.
  induction l1 as [|x l1 IH]; intros l2; simpl.
  - lra.
  - rewrite IH. lra.
Qed.

Lemma triangle_succ : forall r,
  (triangle (S r) == triangle r + inject_Z (Z.of_nat (S r)))%Q.
Proof.
  intros r. unfold triangle. rewrite <- inject_Z_plus, <- Nat2Z.inj_add.
  replace (S r * (S r + 1)) with (r * (r + 1) + S r * 2) by lia.
  rewrite Nat.div_add by discriminate. reflexivity.
Qed.

Lemma triangle_pos : forall n, 0 < n -> (0 < triangle n)%Q.
Proof.
  intros n Hn. destruct n as [|n]; [lia|].
  rewrite triangle_succ.
  assert (0 <= triangle n)%Q.
  { unfold triangle. rewrite <- (Zle_Qle 0). lia. }
  assert (0 < inject_Z (Z.of_nat (S n)))%Q.
  { rewrite <- (Zlt_Qlt 0). lia. }
  lra.
Qed.

Lemma triangle_mono : forall i j, i <= j -> (triangle i <= triangle j)%Q.
Proof.
  intros i j Hij. unfold triangle. rewrite <- Zle_Qle.
  apply Nat2Z.inj_le. apply Nat.Div0.div_le_mono. nia.
Qed.

Lemma Qsum_arange1 : forall m, (Qsum (arange1 m) == triangle m)%Q.
Proof.
  induction m as [|m IH].
  - reflexivity.
  - unfold arange1 in *. rewrite seq_S, map_app, Qsum_app, IH, triangle_succ.
    simpl. lra.
Qed.

Lemma firstn_seq_le : forall m n a, m <= n -> firstn m (seq a n) = seq a m.
Proof.
  induction m as [|m IH]; intros n a Hmn; [reflexivity|].
  destruct n as [|n]; [lia|]. simpl. rewrite IH by lia. reflexivity.
Qed.

Lemma firstn_arange1 : forall m n, m <= n -> firstn m (arange1 n) = arange1 m.
Proof.
  intros m n Hmn. unfold arange1.
  rewrite firstn_map, firstn_seq_le by exact Hmn. reflexivity.
Qed.

Lemma cumsum_from_length : forall l acc, length (cumsum_from acc l) = length l.
Proof.
  induction l as [|x l IH]; intros acc; simpl; [reflexivity|].
  rewrite IH. reflexivity.
Qed.

Lemma cumsum_from_nth : forall l acc j,
  j < length l ->
  (nth j (cumsum_from acc l) 0 == acc + Qsum (firstn (S j) l))%Q.
Proof.
  induction l as [|x l IH]; intros acc j Hj; [simpl in Hj; lia|].
  destruct j as [|j].
  - simpl. destruct l; simpl; lra.
  - change (nth (S j) (cumsum_from acc (x :: l)) 0%Q)
      with (nth j (cumsum_from (acc + x)%Q l) 0%Q).
    rewrite IH by (simpl in Hj; lia).
    change (firstn (S (S j)) (x :: l)) with (x :: firstn (S j) l).
    simpl Qsum. lra.
Qed.

Lemma last_as_nth : forall (l : list Q) d, last l d = nth (length l - 1) l d.
Proof.
  induction l as [|x l IH]; intros d; [reflexivity|].
  destruct l as [|y l]; [reflexivity|].
  change (last (x :: y :: l) d) with (last (y :: l) d). rewrite IH.
  simpl. rewrite Nat.sub_0_r. reflexivity.
Qed.

Lemma arange1_length : forall n, length (arange1 n) = n.
Proof.
  intros n. unfold arange1. rewrite length_map, length_seq. reflexivity.
Qed.

(** The cumulative weights before normalisation: entry [j] is
    [1 + ... + (j + 1)] over [1 + ... + n]. *)
Lemma rank_cumsum_nth : forall n j,
  0 < n -> j < n ->
  (nth j (cumsum (map (fun x => x / Qsum (arange1 n)) (arange1 n))) 0
   == triangle (S j) / triangle n)%Q.
Proof.
  intros n j Hn Hj. unfold cumsum.
  rewrite cumsum_from_nth by (rewrite length_map, arange1_length; exact Hj).
  rewrite firstn_map, firstn_arange1 by lia.
  pose proof (triangle_pos Hn) as Hpos.
  assert (Hne : ~ (Qsum (arange1 n) == 0)%Q) by (rewrite Qsum_arange1; lra).
  rewrite (Qsum_map_div (arange1 (S j)) Hne), !Qsum_arange1. lra.
Qed.

(** The distribution [np.random.choice] searches: entry [j] is the share
    of the ranks up to [j]. *)
Lemma rank_cdf_nth : forall n j,
  0 < n -> j < n ->
  let p := map (fun x => x / Qsum (arange1 n))%Q (arange1 n) in
  (nth j (map (fun c => c / last (cumsum p) 1) (cumsum p)) 0
   == triangle (S j) / triangle n)%Q.
Proof.
  intros n j Hn Hj p.
  assert (Hlen : length (cumsum p) = n).
  { unfold cumsum, p. rewrite cumsum_from_length, length_map. apply arange1_length. }
  pose proof (triangle_pos Hn) as Hpos.
  assert (Hlast : (last (cumsum p) 1 == 1)%Q).
  { rewrite last_as_nth, Hlen.
    rewrite (nth_indep _ 1%Q 0%Q) by (rewrite Hlen; lia). unfold p.
    rewrite rank_cumsum_nth by lia.
    replace (S (n - 1)) with n by lia. field. lra. }
  rewrite (nth_indep _ 0%Q (0 / last (cumsum p) 1)%Q)
    by (rewrite length_map, Hlen; exact Hj).
  rewrite (map_nth (fun c => c / last (cumsum p) 1)%Q).
  rewrite Hlast. unfold p. rewrite rank_cumsum_nth by assumption.
  field. lra.
Qed.

Lemma filter_none : forall (A : Type) (f : A -> bool) l,
  (forall x, In x l -> f x = false) -> filter f l = [].
Proof.
  induction l as [|x l IH]; intros Hf; [reflexivity|].
  simpl. rewrite (Hf x (or_introl eq_refl)). apply IH.
  intros y Hy. apply Hf. right. exact Hy.
Qed.

(** On a non-decreasing list the search splits it into the entries that
    do not exceed [u] and those above it. *)
Lemma searchsorted_right_spec : forall cdf u,
  (forall i j, i <= j -> j < length cdf -> (nth i cdf 0 <= nth j cdf 0)%Q) ->
  searchsorted_right cdf u <= length cdf /\
  (forall j, j < searchsorted_right cdf u -> (nth j cdf 0 <= u)%Q) /\
  (forall j, searchsorted_right cdf u <= j -> j < length cdf ->
             (u < nth j cdf 0)%Q).
Proof.
  induction cdf as [|c cdf IH]; intros u Hmono.
  - unfold searchsorted_right. simpl. repeat split; intros; lia.
  - assert (Htl : forall i j, i <= j -> j < length cdf ->
                              (nth i cdf 0 <= nth j cdf 0)%Q).
    { intros i j Hij Hj. apply (Hmono (S i) (S j)); simpl; lia. }
    destruct (IH u Htl) as [IHlen [IHlow IHhigh]].
    unfold searchsorted_right in *. simpl filter.
    destruct (Qle_bool c u) eqn:Hc.
    + apply Qle_bool_iff in Hc. simpl length. repeat split.
      * lia.
      * intros [|j] Hj; [exact Hc|]. simpl. apply IHlow. lia.
      * intros [|j] Hlo Hj; [lia|]. simpl. apply IHhigh; lia.
    + assert (Hgt : (u < c)%Q).
      { apply Qnot_le_lt. rewrite <- Qle_bool_iff. congruence. }
      rewrite filter_none.
      * simpl length. repeat split; [lia | intros; lia |].
        intros j _ Hj.
        apply Qlt_le_trans with (y := c); [exact Hgt|].
        apply (Hmono 0 j); [lia | exact Hj].
      * intros x Hx. destruct (In_nth _ _ 0%Q Hx) as [k [Hk <-]].
        destruct (Qle_bool (nth k cdf 0%Q) u) eqn:Hx'; [|reflexivity].
        apply Qle_bool_iff in Hx'.
        pose proof (Hmono 0 (S k) (Nat.le_0_l _)) as Hck.
        simpl in Hck. specialize (Hck (proj1 (Nat.succ_lt_mono _ _) Hk)). lra.
Qed.

(** The rank one uniform sample selects among [n] items: rank [r] owns
    the interval between the shares of the ranks below it and up to it,
    of length [(r + 1) / (1 + ... + n)]. *)
Lemma choice_index_rank : forall n u,
  0 < n -> (0 <= u)%Q -> (u < 1)%Q ->
  let r := choice_index (map (fun x => x / Qsum (arange1 n))%Q (arange1 n)) u in
  r < n /\
  (triangle r / triangle n <= u)%Q /\ (u < triangle (S r) / triangle n)%Q.
Proof.
  intros n u Hn Hu0 Hu1. unfold choice_index.
  set (p := map (fun x => x / Qsum (arange1 n))%Q (arange1 n)).
  set (cdf := map (fun c => c / last (cumsum p) 1)%Q (cumsum p)).
  assert (Hlen : length cdf = n).
  { unfold cdf, cumsum, p.
    rewrite length_map, cumsum_from_length, length_map. apply arange1_length. }
  pose proof (triangle_pos Hn) as Hpos.
  assert (Hnth : forall j, j < n -> (nth j cdf 0 == triangle (S j) / triangle n)%Q).
  { intros j Hj. apply rank_cdf_nth; assumption. }
  destruct (@searchsorted_right_spec cdf u) as [Hle [Hlow Hhigh]].
  { intros i j Hij Hj. rewrite Hlen in Hj.
    rewrite (Hnth i), (Hnth j) by lia.
    apply Qmult_le_compat_r; [apply triangle_mono; lia|].
    apply Qlt_le_weak, Qinv_lt_0_compat. exact Hpos. }
  rewrite Hlen in Hle, Hhigh.
  set (r := searchsorted_right cdf u) in *.
  assert (Hr : r < n).
  { destruct (Nat.eq_dec r n) as [Heq|Hne]; [|lia].
    specialize (Hlow (n - 1)). rewrite Hnth in Hlow by lia.
    replace (S (n - 1)) with n in Hlow by lia.
    assert (Hone : (triangle n / triangle n == 1)%Q) by (field; lra).
    rewrite Hone in Hlow. specialize (Hlow ltac:(lia)). lra. }
  split; [exact Hr|]. split.
  - destruct r as [|r'].
    + unfold triangle at 1. simpl. unfold Qdiv. rewrite Qmult_0_l. exact Hu0.
    + rewrite <- (Hnth r') by lia. apply Hlow. lia.
  - rewrite <- (Hnth r) by exact Hr. apply Hhigh; [lia | exact Hr].
Qed.

(** The insertion sort orders the positions of a row by increasing
    score. *)

Lemma insert_score_perm : forall x l, Permutation (insert_score x l) (x :: l).
Proof.
  induction l as [|y l IH]; simpl; [apply Permutation_refl|].
  destruct (fst x <=? fst y)%Z; [apply Permutation_refl|].
  apply perm_trans with (l' := y :: x :: l); [|apply perm_swap].
  apply perm_skip. exact IH.
Qed.

Lemma sort_scores_perm : forall l,
  Permutation (fold_right insert_score [] l) l.
Proof.
  induction l as [|x l IH]; simpl; [apply Permutation_refl|].
  apply perm_trans with (l' := x :: fold_right insert_score [] l).
  - apply insert_score_perm.
  - apply perm_skip. exact IH.
Qed.

Lemma insert_score_sorted : forall x l,
  StronglySorted (fun a b => (fst a <= fst b)%Z) l ->
  StronglySorted (fun a b => (fst a <= fst b)%Z) (insert_score x l).
Proof.
  induction l as [|y l IH]; intros Hs; simpl.
  - constructor; constructor.
  - inversion Hs as [|? ? Hs' Hall]; subst.
    destruct (Z.leb_spec (fst x) (fst y)) as [Hle|Hgt].
    + constructor; [exact Hs|]. constructor; [exact Hle|].
      rewrite Forall_forall in *. intros z Hz. specialize (Hall z Hz). lia.
    + constructor; [apply IH; exact Hs'|].
      apply Forall_forall. intros z Hz.
      apply (Permutation_in _ (insert_score_perm x l)) in Hz.
      destruct Hz as [<-|Hz]; [lia|].
      rewrite Forall_forall in Hall. apply Hall. exact Hz.
Qed.

Lemma sort_scores_sorted : forall l,
  StronglySorted (fun a b => (fst a <= fst b)%Z) (fold_right insert_score [] l).
Proof.
  induction l as [|x l IH]; simpl; [constructor|].
  apply insert_score_sorted. exact IH.
Qed.

Lemma map_snd_combine_seq : forall (r : list Z) start,
  map snd (combine r (seq start (length r))) = seq start (length r).
Proof.
  induction r as [|x r IH]; intros start; simpl; [reflexivity|].
  rewrite IH. reflexivity.
Qed.

Lemma insertion_argsort_perm : forall r,
  Permutation (insertion_argsort r) (seq 0 (length r)).
Proof.
  intros r. unfold insertion_argsort.
  rewrite <- (map_snd_combine_seq r 0) at 2.
  apply Permutation_map. apply sort_scores_perm.
Qed.

Lemma argsort_length : forall argsort r,
  sorts argsort -> length (argsort r) = length r.
Proof.
  intros argsort r Hsorts.
  rewrite (Permutation_length (proj1 (Hsorts r))). apply length_seq.
Qed.

Lemma combine_seq_entry : forall (r : list Z) start v i,
  In (v, i) (combine r (seq start (length r))) ->
  start <= i /\ nth (i - start) r 0%Z = v.
Proof.
  induction r as [|x r IH]; intros start v i Hin; [contradiction|].
  simpl in Hin. destruct Hin as [[= <- <-]|Hin].
  - rewrite Nat.sub_diag. split; [lia | reflexivity].
  - destruct (IH (S start) v i Hin) as [Hle Hnth].
    split; [lia|]. replace (i - start) with (S (i - S start)) by lia.
    exact Hnth.
Qed.

Lemma StronglySorted_nth : forall (A : Type) (R : A -> A -> Prop) l d i j,
  StronglySorted R l -> i < j -> j < length l -> R (nth i l d) (nth j l d).
Proof.
  intros A R l d i j Hs. revert i j.
  induction Hs as [|x l Hs IH Hall]; intros i j Hij Hj; [simpl in Hj; lia|].
  destruct j as [|j]; [lia|]. simpl in Hj.
  destruct i as [|i]; simpl.
  - rewrite Forall_forall in Hall. apply Hall. apply nth_In. lia.
  - apply IH; lia.
Qed.

(** Along [insertion_argsort r] the scores never decrease: position [j]
    of the result is the item of rank [j]. *)
Lemma insertion_argsort_sorted : forall r i j,
  i <= j -> j < length r ->
  (nth (nth i (insertion_argsort r) 0%nat) r 0
   <= nth (nth j (insertion_argsort r) 0%nat) r 0)%Z.
Proof.
  intros r i j Hij Hj. unfold insertion_argsort.
  set (sorted := fold_right insert_score [] (combine r (seq 0 (length r)))).
  assert (Hlen : length sorted = length r).
  { unfold sorted. rewrite (Permutation_length (sort_scores_perm _)).
    rewrite length_combine, length_seq. lia. }
  assert (Hentry : forall k, k < length r ->
            nth (nth k (map snd sorted) 0) r 0%Z = fst (nth k sorted (0%Z, 0))).
  { intros k Hk.
    change 0 with (snd (0%Z, 0)) at 1. rewrite map_nth.
    assert (Hin : In (nth k sorted (0%Z, 0)) (combine r (seq 0 (length r)))).
    { apply (Permutation_in _ (sort_scores_perm _)). fold sorted.
      apply nth_In. lia. }
    destruct (nth k sorted (0%Z, 0)) as [v idx].
    destruct (combine_seq_entry _ _ _ _ Hin) as [_ Hv].
    rewrite Nat.sub_0_r in Hv. exact Hv. }
  rewrite !Hentry by lia.
  destruct (Nat.eq_dec i j) as [->|Hne]; [lia|].
  apply (@StronglySorted_nth _ (fun a b => (fst a <= fst b)%Z) sorted (0%Z, 0) i j);
    [apply sort_scores_sorted | lia | lia].
Qed.

Lemma insertion_argsort_sorts : sorts insertion_argsort.
Proof.
  intros r. split.
  - apply insertion_argsort_perm.
  - intros i j Hij Hj. apply insertion_argsort_sorted; assumption.
Qed.

(** C5: every entry of the recommendation is drawn on its own from one
    rank-weighted distribution over the popularity ordering of the first
    row of [s_t], whichever order the sort gives to items of equal score:
    the sample of entry [(i, j)] selects the rank [r] whose interval, of
    length [(r + 1) / (1 + ... + num_items)], contains it.  The draws are
    independent, so an item may come back within a row. *)
Theorem recommend_rank_weighted :
  forall (argsort : list Z -> list nat)
         (self : PopularityRecommender) (k : nat) (g : RandomState)
         (row0 : list Z) (rest : list (list Z)),
  sorts argsort ->
  s_t self = row0 :: rest ->
  length row0 = num_items self ->
  0 < num_items self ->
  uniform_tape g ->
  Permutation (argsort row0) (seq 0 (num_items self)) /\
  (forall a b, a <= b -> b < num_items self ->
     (nth (nth a (argsort row0) 0%nat) row0 0
      <= nth (nth b (argsort row0) 0%nat) row0 0)%Z) /\
  exists res,
    fst (recommend argsort self k g) = Return res /\
    cursor (snd (recommend argsort self k g)) = cursor g + num_users self * k /\
    length res = num_users self /\
    forall i j, i < num_users self -> j < k ->
      exists r,
        r < num_items self /\
        length (nth i res []) = k /\
        nth j (nth i res []) 0 = nth r (argsort row0) 0 /\
        (triangle r / triangle (num_items self)
         <= tape g (cursor g + (i * k + j)))%Q /\
        (tape g (cursor g + (i * k + j))
         < triangle (S r) / triangle (num_items self))%Q.
Proof.
  intros argsort self k g row0 rest Hsorts Hs Hlen Hn Htape.
  split; [rewrite <- Hlen; apply (proj1 (Hsorts row0))|].
  split; [intros a b Hab Hb; apply (proj2 (Hsorts row0)); [exact Hab | lia]|].
  unfold recommend. rewrite Hs. simpl map. unfold choice.
  rewrite length_map, arange1_length, (argsort_length row0 Hsorts), Hlen.
  destruct (Nat.eqb_spec (num_items self) 0) as [H0|_]; [lia|].
  rewrite Nat.eqb_refl. simpl.
  eexists. split; [reflexivity|]. split; [reflexivity|].
  split; [rewrite length_map, length_seq; reflexivity|].
  intros i j Hi Hj.
  set (u := tape g (cursor g + (i * k + j))).
  destruct (Htape (cursor g + (i * k + j))) as [Hu0 Hu1]. fold u in Hu0, Hu1.
  destruct (@choice_index_rank (num_items self) u Hn Hu0 Hu1) as [Hr [Hlow Hhigh]].
  exists (choice_index
            (map (fun x => x / Qsum (arange1 (num_items self)))%Q
                 (arange1 (num_items self))) u).
  split; [exact Hr|].
  rewrite (nth_indep _ []
             ((fun i0 => map (fun j0 =>
                 nth (choice_index
                        (map (fun x => x / Qsum (arange1 (num_items self)))%Q
                             (arange1 (num_items self)))
                        (tape g (cursor g + (i0 * k + j0))))
                     (argsort row0) 0) (seq 0 k)) 0))
    by (rewrite length_map, length_seq; exact Hi).
  rewrite (map_nth (fun i0 => map (fun j0 =>
                 nth (choice_index
                        (map (fun x => x / Qsum (arange1 (num_items self)))%Q
                             (arange1 (num_items self)))
                        (tape g (cursor g + (i0 * k + j0))))
                     (argsort row0) 0) (seq 0 k))).
  rewrite seq_nth by exact Hi. simpl Nat.add.
  split; [rewrite length_map, length_seq; reflexivity|].
  split; [|split; assumption].
  rewrite (nth_indep _ 0
             ((fun j0 =>
                 nth (choice_index
                        (map (fun x => x / Qsum (arange1 (num_items self)))%Q
                             (arange1 (num_items self)))
                        (tape g (cursor g + (i * k + j0))))
                     (argsort row0) 0) 0))
    by (rewrite length_map, length_seq; exact Hj).
  rewrite (map_nth (fun j0 =>
                 nth (choice_index
                        (map (fun x => x / Qsum (arange1 (num_items self)))%Q
                             (arange1 (num_items self)))
                        (tape g (cursor g + (i * k + j0))))
                     (argsort row0) 0)).
  rewrite seq_nth by exact Hj. reflexivity.
Qed.

Lemma constant_tape_uniform : forall u,
  (0 <= u)%Q -> (u < 1)%Q -> uniform_tape (Examples.constant_tape u).
Proof.
  intros u H0 H1 i. simpl. split; assumption.
Qed.

Lemma recommend_rank_weighted_witness :
  exists res,
    fst (recommend insertion_argsort Examples.two_items 2
                   (Examples.constant_tape (9 # 10)))
    = Return res /\
    length res = 1.
Proof.
  destruct (@recommend_rank_weighted insertion_argsort Examples.two_items 2
              (Examples.constant_tape (9 # 10)) [0%Z; 5%Z] []
              insertion_argsort_sorts eq_refl eq_refl (Nat.lt_0_succ 1)
              (@constant_tape_uniform (9 # 10) ltac:(discriminate) ltac:(reflexivity)))
    as [_ [_ [res [Hres [_ [Hlen _]]]]]].
  exists res. split; [exact Hres | exact Hlen].
Defined.

(** C5, refuted as stated: with two items and [k = 2], two samples of
    0.9 recommend item 1 to the one user twice. *)
Lemma recommend_repeats_item :
  fst (recommend insertion_argsort Examples.two_items 2
                 (Examples.constant_tape (9 # 10)))
  = Return [[1; 1]] /\
  ~ NoDup [1; 1].
Proof.
  split; [vm_compute; reflexivity|].
  intros H. inversion H as [|? ? Hin _]. apply Hin. left. reflexivity.
Qed.

(** C9: a fixed seed does not fix a run.  The driver seeds one stream
    (line 572) and passes it to every simulation, but [init_sim_state]
    builds the creators without it: whatever the stream, their generator
    starts from the entropy of the operating system, and two runs with
    the same stream and the same configuration generate different first
    batches of items.  The popularity recommender draws from the
    process-wide generator, which the seed of the run does not reach
    either. *)
Theorem seeded_runs_diverge :
  (forall (G : Generator) (profiles : ndarray) (args : Args)
          (rng rng' entropy : gstate G),
     init_sim_state G profiles args rng entropy
     = init_sim_state G profiles args rng' entropy) /\
  lawful Lcg.shifted /\
  fst (generate_items
         (init_sim_state Lcg.shifted Examples.two_profiles (Examples.args 1)
                         1234%Z 7%Z))
  <> fst (generate_items
            (init_sim_state Lcg.shifted Examples.two_profiles (Examples.args 1)
                            1234%Z 8%Z)) /\
  fst (recommend insertion_argsort Examples.two_items 1
                 (Examples.constant_tape (9 # 10)))
  <> fst (recommend insertion_argsort Examples.two_items 1
                    (Examples.constant_tape (1 # 10))).
Proof.
  split; [reflexivity|].
  split; [exact shifted_lawful|].
  split; vm_compute; discriminate.
Qed.

(** * Further properties *)

(** ** [PopularityRecommender.recommend] *)

(** X1: [recommend] returns exactly when [s_t] has a first row, that row
    has [num_items] entries and [num_items] is positive; an [s_t] without
    rows is an [IndexError], every other failure a [ValueError]. *)
Theorem recommend_returns_iff :
  forall (argsort : list Z -> list nat)
         (self : PopularityRecommender) (k : nat) (g : RandomState),
  sorts argsort ->
  ((exists res, fst (recommend argsort self k g) = Return res) <->
   (exists row0 rest, s_t self = row0 :: rest /\
                      length row0 = num_items self /\ 0 < num_items self)) /\
  (s_t self = [] <-> fst (recommend argsort self k g) = Raise IndexError) /\
  (forall e, fst (recommend argsort self k g) = Raise e ->
             snd (recommend argsort self k g) = g).
Proof.
  intros argsort self k g Hsorts. unfold recommend.
  destruct (s_t self) as [|row0 rest] eqn:Hs; simpl map.
  - split; [split|split].
    + intros [res H]. discriminate.
    + intros [r0 [rs [H _]]]. discriminate.
    + split; reflexivity.
    + reflexivity.
  - unfold choice.
    rewrite length_map, arange1_length, (argsort_length row0 Hsorts).
    destruct (Nat.eqb_spec (length row0) 0) as [H0|H0];
      destruct (Nat.eqb_spec (num_items self) (length row0)) as [Hn|Hn]; simpl.
    + split; [split|split].
      * intros [res H]. discriminate.
      * intros [r0 [rs [[= <- <-] [H1 H2]]]]. lia.
      * split; discriminate.
      * reflexivity.
    + split; [split|split].
      * intros [res H]. discriminate.
      * intros [r0 [rs [[= <- <-] [H1 H2]]]]. lia.
      * split; discriminate.
      * reflexivity.
    + split; [split|split].
      * intros _. exists row0, rest. repeat split; lia.
      * intros _. eexists. reflexivity.
      * split; discriminate.
      * intros e H. discriminate.
    + split; [split|split].
      * intros [res H]. discriminate.
      * intros [r0 [rs [[= <- <-] [H1 H2]]]]. lia.
      * split; discriminate.
      * reflexivity.
Qed.

Lemma recommend_returns_iff_witness :
  exists res,
    fst (recommend insertion_argsort Examples.two_items 2
                   (Examples.constant_tape (9 # 10)))
    = Return res.
Proof.
  apply (proj1 (@recommend_returns_iff insertion_argsort Examples.two_items 2
                  (Examples.constant_tape (9 # 10)) insertion_argsort_sorts)).
  exists [0%Z; 5%Z], []. repeat split. simpl. lia.
Defined.

(** X2: all users are served from the ranking of the first row of [s_t]:
    two recommenders that agree on the sizes and on that row return the
    same recommendations, whatever the other rows hold. *)
Theorem recommend_first_row_only :
  forall (argsort : list Z -> list nat)
         (self1 self2 : PopularityRecommender) (k : nat) (g : RandomState),
  num_users self1 = num_users self2 ->
  num_items self1 = num_items self2 ->
  hd_error (s_t self1) = hd_error (s_t self2) ->
  recommend argsort self1 k g = recommend argsort self2 k g.
Proof.
  intros argsort self1 self2 k g Hu Hn Hhd. unfold recommend. rewrite Hu, Hn.
  destruct (s_t self1) as [|r1 l1]; destruct (s_t self2) as [|r2 l2];
    simpl in *; try discriminate; [reflexivity|].
  injection Hhd as ->. reflexivity.
Qed.

Lemma recommend_first_row_only_witness :
  recommend insertion_argsort Examples.two_items 2
            (Examples.constant_tape (9 # 10))
  = recommend insertion_argsort (mkPopularity 1 2 [[0%Z; 5%Z]; [7%Z; 1%Z]]) 2
              (Examples.constant_tape (9 # 10)).
Proof.
  apply recommend_first_row_only; reflexivity.
Defined.

(** X3: with samples in [[0, 1)], every id [recommend] returns is the
    index of an item, below [num_items]. *)
Theorem recommend_valid_ids :
  forall (argsort : list Z -> list nat)
         (self : PopularityRecommender) (k : nat) (g : RandomState)
         (res : list (list nat)),
  sorts argsort ->
  uniform_tape g ->
  fst (recommend argsort self k g) = Return res ->
  Forall (Forall (fun item => item < num_items self)) res.
Proof.
  intros argsort self k g res Hsorts Htape. unfold recommend.
  destruct (s_t self) as [|row0 rest]; simpl map; [discriminate|].
  unfold choice. rewrite length_map, arange1_length, (argsort_length row0 Hsorts).
  destruct (Nat.eqb_spec (length row0) 0) as [H0|H0]; [discriminate|].
  destruct (Nat.eqb_spec (num_items self) (length row0)) as [Hn|Hn];
    [|discriminate].
  simpl. intros [= <-].
  apply Forall_forall. intros r Hr.
  apply in_map_iff in Hr. destruct Hr as [i [<- _]].
  apply Forall_forall. intros x Hx.
  apply in_map_iff in Hx. destruct Hx as [j [<- _]].
  destruct (Htape (cursor g + (i * k + j))) as [Hu0 Hu1].
  assert (Hpos : 0 < num_items self) by lia.
  destruct (@choice_index_rank (num_items self) _ Hpos Hu0 Hu1) as [Hr _].
  assert (Hin : In (nth (choice_index
                           (map (fun x => (x / Qsum (arange1 (num_items self)))%Q)
                                (arange1 (num_items self)))
                           (tape g (cursor g + (i * k + j))))
                        (argsort row0) 0) (argsort row0)).
  { apply nth_In. rewrite (argsort_length row0 Hsorts). lia. }
  apply (Permutation_in _ (proj1 (Hsorts row0))) in Hin.
  apply in_seq in Hin. lia.
Qed.

Lemma recommend_valid_ids_witness :
  Forall (Forall (fun item => item < 2)) [[1; 1]].
Proof.
  apply (@recommend_valid_ids insertion_argsort Examples.two_items 2
           (Examples.constant_tape (9 # 10)) [[1; 1]]).
  - apply insertion_argsort_sorts.
  - apply constant_tape_uniform; [discriminate | reflexivity].
  - vm_compute. reflexivity.
Defined.

(** X25: [recommend] receives no random stream; what it returns is fixed
    by the recommender and by the next [num_users * k] samples of the
    process-wide generator, which it advances by as many. *)
Theorem recommend_determined_by_samples :
  forall (argsort : list Z -> list nat)
         (self : PopularityRecommender) (k : nat) (g1 g2 : RandomState),
  agree_on (num_users self * k) g1 g2 ->
  fst (recommend argsort self k g1) = fst (recommend argsort self k g2) /\
  (forall res, fst (recommend argsort self k g1) = Return res ->
     cursor (snd (recommend argsort self k g1))
     = cursor g1 + num_users self * k).
Proof.
  intros argsort self k g1 g2 Hagree. unfold recommend.
  destruct (map argsort (s_t self)) as [|rec0 rec]; [split; [reflexivity|]|].
  - intros res Hres. discriminate.
  - unfold choice. destruct (_ || _); [split; [reflexivity | discriminate]|].
    split; [|reflexivity]. simpl. f_equal.
    apply map_ext_in. intros i Hi. apply in_seq in Hi.
    apply map_ext_in. intros j Hj. apply in_seq in Hj.
    rewrite (Hagree (i * k + j)) by nia. reflexivity.
Qed.

Lemma recommend_determined_by_samples_witness :
  fst (recommend insertion_argsort Examples.two_items 2
                 (Examples.constant_tape (9 # 10)))
  = fst (recommend insertion_argsort Examples.two_items 2 Examples.late_tape).
Proof.
  refine (proj1 (@recommend_determined_by_samples insertion_argsort
                   Examples.two_items 2
                   (Examples.constant_tape (9 # 10)) Examples.late_tape _)).
  intros i Hi. simpl in *.
  destruct i as [|[|i]]; [reflexivity | reflexivity | lia].
Defined.

(** ** [ChaneyCreators.update_profiles] *)

Lemma indices_accepted : forall (n m : nat) (f : nat -> nat) (l : list Z),
  (exists pos, norm_indices n l = Some pos /\
               forallb (fun c => c <? m) (map f pos) = true) <->
  Forall (fun i => exists p, norm_index n i = Some p /\ f p < m) l.
Proof.
  intros n m f. induction l as [|i l IH].
  - split; [constructor | intros _; exists []; split; reflexivity].
  - split.
    + intros [pos [Hpos Hall]]. simpl in Hpos.
      destruct (norm_index n i) as [p|] eqn:Hi; [|discriminate].
      destruct (norm_indices n l) as [ps|] eqn:Hl; [|discriminate].
      injection Hpos as <-. simpl in Hall.
      apply andb_true_iff in Hall. destruct Hall as [Hp Hps].
      constructor.
      * exists p. split; [exact Hi | apply Nat.ltb_lt; exact Hp].
      * apply IH. exists ps. split; [reflexivity | exact Hps].
    + intros H. inversion H as [|? ? [p [Hi Hp]] Hl]; subst.
      apply IH in Hl. destruct Hl as [ps [Hps Hall]].
      exists (p :: ps). simpl. rewrite Hi, Hps. split; [reflexivity|].
      apply andb_true_iff. split; [apply Nat.ltb_lt; exact Hp | exact Hall].
Qed.

(** X4: [update_profiles] returns exactly when the id sequence is as long
    as the catalog is wide, every interaction index lies in [[-n, n)] and
    leads to a creator that exists, and the items have as many attributes
    as the profiles (or a single one, which NumPy broadcasts).  It fails
    its assertion exactly when the lengths differ. *)
Theorem update_profiles_returns_iff :
  forall (G : Generator) (self : ChaneyCreators G)
         (interactions : list (list Z)) (items : ndarray),
  (fst (update_profiles self interactions items) = Return tt <->
   length (ordered_creator_ids self) = shape1 items /\
   Forall (fun i => exists p,
             norm_index (length (ordered_creator_ids self)) i = Some p /\
             nth p (ordered_creator_ids self) 0
             < shape0 (actual_creator_profiles self))
          (concat interactions) /\
   (shape0 items = shape1 (actual_creator_profiles self) \/ shape0 items = 1)) /\
  (fst (update_profiles self interactions items) = Raise AssertionError <->
   length (ordered_creator_ids self) <> shape1 items).
Proof.
  intros G self interactions items.
  pose proof (indices_accepted (length (ordered_creator_ids self))
                (shape0 (actual_creator_profiles self))
                (fun k => nth k (ordered_creator_ids self) 0)
                (concat interactions)) as Hidx.
  unfold update_profiles, accumulate.
  destruct (Nat.eqb_spec (length (ordered_creator_ids self)) (shape1 items))
    as [Hlen|Hlen]; simpl.
  2:{ split; split; intros H; try discriminate; try reflexivity; tauto. }
  destruct (norm_indices _ _) as [pos|] eqn:Hpos.
  2:{ assert (Hbad : ~ Forall (fun i => exists p,
                 norm_index (length (ordered_creator_ids self)) i = Some p /\
                 nth p (ordered_creator_ids self) 0
                 < shape0 (actual_creator_profiles self)) (concat interactions)).
      { intros Hall. apply Hidx in Hall.
        destruct Hall as [ps [Hps _]]. discriminate. }
      split; split; intros H; try discriminate; tauto. }
  unfold add_at. simpl shape1.
  destruct (forallb _ _) eqn:Hall; simpl.
  2:{ assert (Hbad : ~ Forall (fun i => exists p,
                 norm_index (length (ordered_creator_ids self)) i = Some p /\
                 nth p (ordered_creator_ids self) 0
                 < shape0 (actual_creator_profiles self)) (concat interactions)).
      { intros Hf. apply Hidx in Hf.
        destruct Hf as [ps [[= <-] Hps]]. congruence. }
      split; split; intros H; try discriminate; tauto. }
  assert (Hf : Forall (fun i => exists p,
                 norm_index (length (ordered_creator_ids self)) i = Some p /\
                 nth p (ordered_creator_ids self) 0
                 < shape0 (actual_creator_profiles self)) (concat interactions)).
  { apply Hidx. exists pos. split; [reflexivity | exact Hall]. }
  destruct (Nat.eqb_spec (shape0 items) (shape1 (actual_creator_profiles self)))
    as [Ha|Ha]; simpl.
  { split; split; intros H; try discriminate; try reflexivity; tauto. }
  destruct (Nat.eqb_spec (shape0 items) 1) as [H1|H1]; simpl.
  { split; split; intros H; try discriminate; try reflexivity; tauto. }
  split; split; intros H; try discriminate; tauto.
Qed.

(** X5: [update_profiles] writes nothing but the profile values: the id
    sequence, the generator and the parameters are as before, and the
    profile matrix keeps its shape, whether the call returns or raises. *)
Theorem update_profiles_keeps_ids :
  forall (G : Generator) (self : ChaneyCreators G)
         (interactions : list (list Z)) (items : ndarray),
  let self' := snd (update_profiles self interactions items) in
  ordered_creator_ids self' = ordered_creator_ids self /\
  rng self' = rng self /\
  items_per_creator self' = items_per_creator self /\
  learning_rate self' = learning_rate self /\
  creation_probability self' = creation_probability self /\
  shape0 (actual_creator_profiles self') = shape0 (actual_creator_profiles self) /\
  shape1 (actual_creator_profiles self') = shape1 (actual_creator_profiles self) /\
  (forall e, fst (update_profiles self interactions items) = Raise e ->
             self' = self).
Proof.
  intros G self interactions items. unfold update_profiles.
  destruct (accumulate self interactions items) as [added|e] eqn:Hacc; simpl.
  - unfold accumulate in Hacc.
    destruct (negb _); [discriminate|].
    destruct (norm_indices _ _); [|discriminate].
    apply add_at_shape in Hacc. destruct Hacc as [H0 H1].
    repeat split; auto. discriminate.
  - repeat split; auto.
Qed.

Lemma norm_index_mod : forall n i,
  (- Z.of_nat n <= i < Z.of_nat n)%Z ->
  norm_index n (i mod Z.of_nat n) = norm_index n i.
Proof.
  intros n i Hi. unfold norm_index.
  assert (Hn : (0 < Z.of_nat n)%Z) by lia.
  pose proof (Z.mod_pos_bound i (Z.of_nat n) Hn) as Hm.
  replace ((0 <=? i mod Z.of_nat n) && (i mod Z.of_nat n <? Z.of_nat n))%Z
    with true by (symmetry; apply andb_true_iff; split;
                  [apply Z.leb_le | apply Z.ltb_lt]; lia).
  destruct (Z.leb_spec 0 i) as [Hpos|Hneg].
  - replace (i <? Z.of_nat n)%Z with true by (symmetry; apply Z.ltb_lt; lia).
    simpl. rewrite Z.mod_small by lia. reflexivity.
  - simpl.
    replace ((- Z.of_nat n <=? i) && (i <? 0))%Z
      with true by (symmetry; apply andb_true_iff; split;
                    [apply Z.leb_le | apply Z.ltb_lt]; lia).
    f_equal. f_equal.
    rewrite <- (Z.mod_add i 1 (Z.of_nat n)) by lia.
    rewrite Z.mod_small by lia. lia.
Qed.

Lemma norm_indices_mod : forall n l,
  Forall (fun i => (- Z.of_nat n <= i < Z.of_nat n)%Z) l ->
  norm_indices n (map (fun i => (i mod Z.of_nat n)%Z) l) = norm_indices n l.
Proof.
  induction 1 as [|i l Hi _ IH]; simpl; [reflexivity|].
  rewrite norm_index_mod by exact Hi. rewrite IH. reflexivity.
Qed.

(** X6: an interaction index is read as Python reads it: a negative
    index [-k] names the item [n - k].  Within [[-n, n)] the update is
    the one of the indices taken modulo the catalog size. *)
Theorem update_profiles_negative_index_wraps :
  forall (G : Generator) (self : ChaneyCreators G)
         (interactions : list (list Z)) (items : ndarray),
  Forall (Forall (fun i =>
            (- Z.of_nat (length (ordered_creator_ids self)) <= i
             < Z.of_nat (length (ordered_creator_ids self)))%Z)) interactions ->
  update_profiles self interactions items
  = update_profiles self
      (map (map (fun i =>
                   (i mod Z.of_nat (length (ordered_creator_ids self)))%Z))
           interactions)
      items.
Proof.
  intros G self interactions items Hrange.
  unfold update_profiles, accumulate.
  rewrite <- concat_map, norm_indices_mod; [reflexivity|].
  clear -Hrange. induction Hrange as [|r l Hr _ IH]; simpl; [constructor|].
  apply Forall_app. split; assumption.
Qed.

Lemma update_profiles_negative_index_wraps_witness :
  update_profiles Examples.with_catalog Examples.clicks Examples.catalog
  = update_profiles Examples.with_catalog
      (map (map (fun i => (i mod 2)%Z)) Examples.clicks) Examples.catalog.
Proof.
  apply (@update_profiles_negative_index_wraps Lcg.gen Examples.with_catalog
           Examples.clicks Examples.catalog).
  repeat constructor; simpl; lia.
Defined.

Lemma update_nth_other : forall (A : Type) (f : A -> A) (d : A) j l i,
  i <> j -> nth i (update_nth f j l) d = nth i l d.
Proof.
  intros A f d j l. revert j.
  induction l as [|x l IH]; intros j i Hij; [destruct j; reflexivity|].
  destruct j as [|j]; destruct i as [|i]; simpl; try reflexivity; try lia.
  apply IH. lia.
Qed.

Lemma add_at_rows_other : forall idx v data i,
  ~ In i idx -> nth i (add_at_rows data idx v) [] = nth i data [].
Proof.
  induction idx as [|j idx IH]; intros v data i Hi; [reflexivity|].
  destruct v as [|w v]; [reflexivity|]. simpl.
  rewrite IH by (intros H; apply Hi; right; exact H).
  apply update_nth_other. intros ->. apply Hi. left. reflexivity.
Qed.

Lemma norm_indices_Forall2 : forall n l pos,
  norm_indices n l = Some pos ->
  Forall2 (fun i p => norm_index n i = Some p) l pos.
Proof.
  intros n. induction l as [|i l IH]; intros pos H; simpl in H.
  - injection H as <-. constructor.
  - destruct (norm_index n i) as [p|] eqn:Hi; [|discriminate].
    destruct (norm_indices n l) as [ps|]; [|discriminate].
    injection H as <-. constructor; [exact Hi | apply IH; reflexivity].
Qed.

(** X7: the renormalisation and the clip reach every creator: the row of
    a creator none of whose items was interacted with is replaced by its
    own renormalised and clipped values. *)
Theorem update_profiles_idle_creator :
  forall (G : Generator) (self : ChaneyCreators G)
         (interactions : list (list Z)) (items : ndarray) (c : nat),
  fst (update_profiles self interactions items) = Return tt ->
  Forall (fun i => forall p,
            norm_index (length (ordered_creator_ids self)) i = Some p ->
            nth p (ordered_creator_ids self) 0 <> c)
         (concat interactions) ->
  row (actual_creator_profiles (snd (update_profiles self interactions items))) c
  = map (clip (Fin (1 # 10000)) (Fin 1))
        (map (fun x => div x (Float.sum (row (actual_creator_profiles self) c)))
             (row (actual_creator_profiles self) c)).
Proof.
  intros G self interactions items c Hret Hidle.
  unfold update_profiles in *.
  destruct (accumulate self interactions items) as [added|e] eqn:Hacc;
    [clear Hret | discriminate].
  change (actual_creator_profiles
            (snd (Return tt, set_profiles self (clip_profiles (renormalize added)))))
    with (clip_profiles (renormalize added)).
  assert (Hrow : row added c = row (actual_creator_profiles self) c).
  { unfold accumulate in Hacc.
    destruct (negb _); [discriminate|].
    destruct (norm_indices _ _) as [pos|] eqn:Hpos; [|discriminate].
    apply norm_indices_Forall2 in Hpos.
    assert (Hnot : ~ In c (map (fun k => nth k (ordered_creator_ids self) 0) pos)).
    { intros Hin. apply in_map_iff in Hin. destruct Hin as [p [Hp Hin]].
      clear Hacc. induction Hpos as [|i q l ps Hi _ IH]; [contradiction|].
      inversion Hidle as [|? ? Hc Hl]; subst.
      destruct Hin as [->|Hin]; [exact (Hc p Hi eq_refl) | exact (IH Hl Hin)]. }
    unfold add_at in Hacc.
    destruct (negb _); [discriminate|].
    unfold row.
    destruct (_ =? _); [|destruct (_ =? _); [|discriminate]];
      injection Hacc as <-; simpl; apply add_at_rows_other; exact Hnot. }
  unfold row in *. rewrite clipped_rows.
  change (@nil float)
    with ((fun r => map (clip (Fin (1 # 10000)) (Fin 1))
                        (map (fun x => div x (Float.sum r)) r)) []) at 1.
  rewrite map_nth, Hrow. reflexivity.
Qed.

Lemma update_profiles_idle_creator_witness :
  row (actual_creator_profiles
         (snd (update_profiles Examples.with_catalog [[1%Z]] Examples.catalog))) 0
  = map (clip (Fin (1 # 10000)) (Fin 1))
        (map (fun x => div x (Float.sum (row (actual_creator_profiles
                                                Examples.with_catalog) 0)))
             (row (actual_creator_profiles Examples.with_catalog) 0)).
Proof.
  apply (@update_profiles_idle_creator Lcg.gen Examples.with_catalog [[1%Z]]
           Examples.catalog 0).
  - vm_compute. reflexivity.
  - repeat constructor. intros p Hp. vm_compute in Hp. injection Hp as <-.
    discriminate.
Defined.

(** ** [ChaneyCreators.generate_items] *)

Lemma assign_rows_shape : forall a start stop v a',
  assign_rows a start stop v = Return a' ->
  shape0 a' = shape0 a /\ shape1 a' = shape1 a.
Proof.
  intros a start stop v a'. unfold assign_rows.
  destruct (_ =? _); [intros [= <-]; auto|].
  destruct (_ =? _); [intros [= <-]; auto | discriminate].
Qed.

Lemma fill_items_shape : forall (G : Generator) ipc profiles chosen idx
                                (g : gstate G) items items',
  fst (fill_items G ipc profiles chosen idx g items) = Return items' ->
  shape0 items' = shape0 items /\ shape1 items' = shape1 items.
Proof.
  intros G ipc profiles. induction chosen as [|c rest IH];
    intros idx g items items' H; simpl in H.
  - injection H as <-. auto.
  - unfold checked_dirichlet in H.
    destruct (dirichlet_accepts G _); [|discriminate].
    destruct (dirichlet G g _ ipc) as [draw g1].
    destruct (assign_rows items idx ((idx + 1) * ipc) draw) as [items1|e] eqn:Ha;
      [|discriminate].
    apply assign_rows_shape in Ha. apply IH in H. destruct Ha, H. split; congruence.
Qed.

(** X8: whatever the mask selects, a batch that [generate_items] returns
    has [num_attrs] rows and [items_per_creator * num_creators] columns. *)
Theorem generate_items_batch_shape :
  forall (G : Generator) (self : ChaneyCreators G) (items : ndarray),
  fst (generate_items self) = Return items ->
  shape0 items = shape1 (actual_creator_profiles self) /\
  shape1 items = Z.to_nat (items_per_creator self)
                 * shape0 (actual_creator_profiles self).
Proof.
  intros G self items. unfold generate_items.
  destruct (negb _); [discriminate|].
  destruct (binomial G _ _ _) as [mask g1].
  destruct (_ <? _)%Z; [discriminate|].
  destruct (fill_items _ _ _ _ _ _ _) as [filled g2] eqn:Hfill.
  destruct filled as [items'|e]; [|discriminate].
  simpl. intros [= <-]. simpl.
  pose proof (@fill_items_shape G _ _ _ _ _ _ items'
                (f_equal fst Hfill)) as [H0 H1].
  simpl in H0, H1. auto.
Qed.

Lemma generate_items_batch_shape_witness :
  shape0 (mkArr 2 2 [[Examples.q 400 800; Examples.q 1600 6400];
                     [Examples.q 400 800; Examples.q 4800 6400]]) = 2 /\
  shape1 (mkArr 2 2 [[Examples.q 400 800; Examples.q 1600 6400];
                     [Examples.q 400 800; Examples.q 4800 6400]]) = 1 * 2.
Proof.
  apply (@generate_items_batch_shape Lcg.gen (Examples.two_creators 1 1)).
  vm_compute. reflexivity.
Defined.

Lemma nonzero_bound : forall mask,
  Forall (fun c => c < length mask) (nonzero mask).
Proof.
  intros mask. unfold nonzero. apply Forall_forall. intros c Hc.
  apply in_map_iff in Hc. destruct Hc as [[i b] [<- Hin]].
  apply filter_In in Hin. destruct Hin as [Hin _].
  apply in_combine_l in Hin. apply in_seq in Hin. simpl. lia.
Qed.

(** X9: [generate_items] records, for every selected creator in
    increasing order, [items_per_creator] copies of its index, all of
    them indices of existing creators, and writes nothing else of the
    object but the generator; it does so whether it then returns or
    raises in the loop. *)
Theorem generate_items_records_selected :
  forall (G : Generator) (self : ChaneyCreators G),
  lawful G ->
  (0 <= creation_probability self)%Q -> (creation_probability self <= 1)%Q ->
  (0 <= items_per_creator self)%Z ->
  let mask := fst (binomial G (rng self) (creation_probability self)
                            (shape0 (actual_creator_profiles self))) in
  let self' := snd (generate_items self) in
  ordered_creator_ids self'
  = ordered_creator_ids self
    ++ np_repeat (nonzero mask) (Z.to_nat (items_per_creator self)) /\
  length (ordered_creator_ids self')
  = length (ordered_creator_ids self)
    + length (nonzero mask) * Z.to_nat (items_per_creator self) /\
  Forall (fun c => c < shape0 (actual_creator_profiles self))
         (np_repeat (nonzero mask) (Z.to_nat (items_per_creator self))) /\
  actual_creator_profiles self' = actual_creator_profiles self /\
  items_per_creator self' = items_per_creator self /\
  creation_probability self' = creation_probability self /\
  learning_rate self' = learning_rate self.
Proof.
  intros G self HG H0 H1 Hipc mask self'.
  pose proof (generate_items_ids self H0 H1 Hipc) as Hids.
  destruct (generate_items_frame self) as [Fi [Fp [Fa Fl]]].
  fold mask self' in Hids. subst self'.
  split; [exact Hids|]. split.
  - rewrite Hids, length_app, np_repeat_length. reflexivity.
  - split; [|auto].
    pose proof (nonzero_bound mask) as Hb.
    unfold mask in Hb at 1. rewrite (binomial_length HG) in Hb.
    unfold np_repeat. apply Forall_forall. intros c Hc.
    apply in_flat_map in Hc. destruct Hc as [d [Hd Hc]].
    apply repeat_spec in Hc. subst c.
    rewrite Forall_forall in Hb. apply Hb. exact Hd.
Qed.

Lemma generate_items_records_selected_witness :
  ordered_creator_ids (snd (generate_items (Examples.two_creators 2 (1 # 2))))
  = [1; 1].
Proof.
  refine (eq_trans
            (proj1 (@generate_items_records_selected Lcg.gen
                      (Examples.two_creators 2 (1 # 2)) lcg_lawful _ _ _)) _).
  - discriminate.
  - discriminate.
  - discriminate.
  - vm_compute. reflexivity.
Defined.



Lemma nth_splice : forall (A : Type) (l v : list A) (idx t : nat) (d : A),
  idx + length v <= length l ->
  nth t (firstn idx l ++ v ++ skipn (idx + length v) l) d
  = if t <? idx then nth t l d
    else if t <? idx + length v then nth (t - idx) v d
    else nth t l d.
Proof.
  intros A l v idx t d Hle.
  assert (Hf : length (firstn idx l) = idx) by (apply firstn_length_le; lia).
  destruct (Nat.ltb_spec t idx) as [Hlt|Hge].
  - rewrite app_nth1 by lia. rewrite nth_firstn.
    destruct (Nat.ltb_spec t idx); [reflexivity | lia].
  - rewrite app_nth2 by lia. rewrite Hf.
    destruct (Nat.ltb_spec t (idx + length v)) as [Hin|Hout].
    + rewrite app_nth1 by lia. reflexivity.
    + rewrite app_nth2 by lia. rewrite nth_skipn. f_equal. lia.
Qed.

Lemma assign_rows_raises : forall a start stop v e,
  assign_rows a start stop v = Raise e -> e = ValueError.
Proof.
  intros a start stop v e. unfold assign_rows.
  destruct (_ =? _); [discriminate|].
  destruct (_ =? _); [discriminate|]. intros [= <-]. reflexivity.
Qed.

Section UnitBatches.

Variable G : Generator.
Hypothesis HG : lawful G.

(** A concentration the generator refuses ends the loop with a
    [ValueError], whatever [items_per_creator] is. *)
Lemma fill_items_refused : forall ipc profiles chosen idx (g : gstate G) items,
  Exists (fun c => dirichlet_accepts G (concentration profiles c) = false) chosen ->
  fst (fill_items G ipc profiles chosen idx g items) = Raise ValueError.
Proof.
  intros ipc profiles. induction chosen as [|c rest IH]; intros idx g items Hex.
  - inversion Hex.
  - simpl. unfold checked_dirichlet.
    destruct (dirichlet_accepts G (concentration profiles c)) eqn:Hc;
      [|reflexivity].
    destruct (dirichlet G g _ ipc) as [draw g1].
    destruct (assign_rows items idx ((idx + 1) * ipc) draw) as [items1|e] eqn:Ha.
    + apply IH. inversion Hex as [? ? Hhd|? ? Htl]; subst; [congruence | exact Htl].
    + apply assign_rows_raises in Ha. subst e. reflexivity.
Qed.

(** With one item per creator the slice of the loop is a single row, and
    the loop fills the rows [idx, idx + 1, ...] with one draw each. *)
Lemma fill_items_unit : forall profiles chosen idx (g : gstate G) items,
  Forall (fun c => dirichlet_accepts G (concentration profiles c) = true) chosen ->
  length (rows items) = shape0 items ->
  idx + length chosen <= shape0 items ->
  exists items',
    fst (fill_items G 1 profiles chosen idx g items) = Return items' /\
    shape0 items' = shape0 items /\ shape1 items' = shape1 items /\
    length (rows items') = shape0 items' /\
    (forall t, t < idx \/ idx + length chosen <= t ->
               nth t (rows items') [] = nth t (rows items) []) /\
    (forall t, t < length chosen ->
       exists g',
         nth (idx + t) (rows items') []
         = hd [] (fst (dirichlet G g'
                         (concentration profiles (nth t chosen 0)) 1))).
Proof.
  intros profiles. induction chosen as [|c rest IH];
    intros idx g items Hacc Hlen Hfit.
  - exists items. simpl. repeat split; auto. intros t Ht. lia.
  - apply Forall_cons_iff in Hacc. destruct Hacc as [Hc Hacc].
    simpl in Hfit. simpl fill_items. unfold checked_dirichlet. rewrite Hc.
    pose proof (dirichlet_shape HG g (concentration profiles c) 1) as [Hd _].
    destruct (dirichlet G g _ 1) as [draw g1] eqn:Hdraw. simpl in Hd.
    unfold assign_rows.
    replace (Nat.min ((idx + 1) * 1) (shape0 items) - Nat.min idx (shape0 items))
      with 1 by lia.
    rewrite Hd. simpl Nat.eqb. cbv iota.
    replace (Nat.min idx (shape0 items)) with idx by lia.
    set (items1 := mkArr (shape0 items) (shape1 items)
                         (firstn idx (rows items) ++ draw
                          ++ skipn (idx + 1) (rows items))).
    assert (Hlen1 : length (rows items1) = shape0 items1).
    { simpl. rewrite !length_app, length_skipn, firstn_length_le by lia. lia. }
    destruct (IH (S idx) g1 items1 Hacc Hlen1) as
      [items' [Hret [Hs0 [Hs1 [Hl [Hout Hin]]]]]]; [simpl; lia|].
    exists items'. split; [exact Hret|].
    split; [exact Hs0|]. split; [exact Hs1|]. split; [exact Hl|].
    assert (Hsplice : forall t,
              nth t (rows items1) []
              = if t <? idx then nth t (rows items) []
                else if t <? idx + 1 then nth (t - idx) draw []
                else nth t (rows items) []).
    { intros t. simpl.
      assert (Hfit1 : idx + length draw <= length (rows items)) by lia.
      pose proof (@nth_splice (list float) (rows items) draw idx t [] Hfit1)
        as Hsp.
      rewrite Hd in Hsp. exact Hsp. }
    split.
    + intros t Ht. rewrite Hout by (simpl in *; lia). rewrite Hsplice.
      destruct (Nat.ltb_spec t idx); [reflexivity|].
      destruct (Nat.ltb_spec t (idx + 1)); [simpl in Ht; lia | reflexivity].
    + intros [|t] Ht.
      * exists g. rewrite Nat.add_0_r, Hout by lia. rewrite Hsplice.
        destruct (Nat.ltb_spec idx idx); [lia|].
        destruct (Nat.ltb_spec idx (idx + 1)); [|lia].
        rewrite Nat.sub_diag. simpl nth at 2. rewrite Hdraw. simpl.
        destruct draw as [|x [|y draw]]; try discriminate. reflexivity.
      * destruct (Hin t) as [g' Hg']; [simpl in Ht; lia|].
        exists g'. replace (idx + S t) with (S idx + t) by lia.
        exact Hg'.
Qed.

(** One item per creator and every selected concentration accepted: the
    call returns the transpose of an array with one row per creator. *)
Lemma generate_items_unit_returns :
  forall (self : ChaneyCreators G),
  (0 <= creation_probability self)%Q -> (creation_probability self <= 1)%Q ->
  items_per_creator self = 1%Z ->
  let profiles := actual_creator_profiles self in
  let chosen := nonzero (fst (binomial G (rng self) (creation_probability self)
                                       (shape0 profiles))) in
  Forall (fun c => dirichlet_accepts G (concentration profiles c) = true) chosen ->
  exists items',
    fst (generate_items self) = Return (transpose items') /\
    shape0 items' = shape0 profiles /\ shape1 items' = shape1 profiles /\
    (forall t, t < length chosen ->
       exists g',
         nth t (rows items') []
         = hd [] (fst (dirichlet G g'
                         (concentration profiles (nth t chosen 0)) 1))) /\
    (forall t, length chosen <= t < shape0 profiles ->
               nth t (rows items') [] = repeat zero (shape1 profiles)).
Proof.
  intros self H0 H1 Hipc profiles chosen Hacc. unfold generate_items.
  apply Qle_bool_iff in H0. apply Qle_bool_iff in H1. rewrite H0, H1. simpl negb.
  cbv iota. rewrite Hipc. simpl Z.ltb. cbv iota.
  change (Z.to_nat 1) with 1.
  pose proof (binomial_length HG (rng self) (creation_probability self)
                (shape0 (actual_creator_profiles self))) as Hmask.
  subst chosen profiles.
  destruct (binomial G _ _ _) as [mask g1]. simpl in Hmask, Hacc. simpl fst.
  pose proof (nonzero_length mask) as Hchosen. rewrite Hmask in Hchosen.
  destruct (@fill_items_unit (actual_creator_profiles self) (nonzero mask) 0 g1
              (zeros (1 * shape0 (actual_creator_profiles self))
                     (shape1 (actual_creator_profiles self))))
    as [items' [Hret [Hs0 [Hs1 [_ [Hout Hin]]]]]].
  - exact Hacc.
  - simpl. apply repeat_length.
  - simpl. lia.
  - destruct (fill_items _ _ _ _ _ _ _) as [filled g2]. simpl in Hret. subst filled.
    exists items'. simpl in Hs0, Hs1.
    split; [reflexivity|]. split; [lia|]. split; [exact Hs1|]. split.
    + intros t Ht. destruct (Hin t Ht) as [g' Hg']. exists g'. exact Hg'.
    + intros t Ht. rewrite Hout by lia. simpl.
      rewrite Nat.add_0_r. apply nth_repeat_lt. lia.
Qed.

(** X11: with one item per creator [generate_items] returns exactly when
    the generator accepts the concentration of every selected creator,
    its profile scaled by 0.1.  The batch is then the transpose of an
    array with one row per creator: row [t] is a Dirichlet draw on the
    concentration of the [t]-th selected creator, and the rows past the
    selected creators are zero.  A refused concentration, one with a
    negative entry for instance, makes the call raise [ValueError], after
    the ids of the batch have been recorded. *)
Theorem generate_items_one_per_creator :
  forall (self : ChaneyCreators G),
  (0 <= creation_probability self)%Q -> (creation_probability self <= 1)%Q ->
  items_per_creator self = 1%Z ->
  let profiles := actual_creator_profiles self in
  let chosen := nonzero (fst (binomial G (rng self) (creation_probability self)
                                       (shape0 profiles))) in
  (Forall (fun c => dirichlet_accepts G (concentration profiles c) = true) chosen ->
   exists items',
     fst (generate_items self) = Return (transpose items') /\
     shape0 items' = shape0 profiles /\ shape1 items' = shape1 profiles /\
     (forall t, t < length chosen ->
        exists g',
          nth t (rows items') []
          = hd [] (fst (dirichlet G g'
                          (concentration profiles (nth t chosen 0)) 1))) /\
     (forall t, length chosen <= t < shape0 profiles ->
                nth t (rows items') [] = repeat zero (shape1 profiles))) /\
  (Exists (fun c => existsb negative (concentration profiles c) = true) chosen ->
   Exists (fun c => dirichlet_accepts G (concentration profiles c) = false)
          chosen) /\
  (Exists (fun c => dirichlet_accepts G (concentration profiles c) = false)
          chosen ->
   fst (generate_items self) = Raise ValueError /\
   ordered_creator_ids (snd (generate_items self))
   = ordered_creator_ids self ++ np_repeat chosen 1).
Proof.
  intros self H0 H1 Hipc profiles chosen. split; [|split].
  - apply (generate_items_unit_returns self H0 H1 Hipc).
  - intros Hneg. apply Exists_exists in Hneg. destruct Hneg as [c [Hc Hneg]].
    apply Exists_exists. exists c. split; [exact Hc|].
    apply (dirichlet_refuses HG). exact Hneg.
  - intros Hex. split.
    + unfold generate_items.
      pose proof H0 as B0. pose proof H1 as B1.
      apply Qle_bool_iff in B0. apply Qle_bool_iff in B1. rewrite B0, B1.
      simpl negb. cbv iota. rewrite Hipc. simpl Z.ltb. cbv iota.
      subst chosen profiles.
      destruct (binomial G _ _ _) as [mask g1]. simpl in Hex.
      pose proof (@fill_items_refused (Z.to_nat 1) (actual_creator_profiles self)
                    (nonzero mask) 0 g1
                    (zeros (Z.to_nat 1 * shape0 (actual_creator_profiles self))
                           (shape1 (actual_creator_profiles self))) Hex) as Hraise.
      destruct (fill_items _ _ _ _ _ _ _) as [filled g2]. simpl in Hraise.
      subst filled. reflexivity.
    + rewrite generate_items_ids by (try assumption; lia).
      rewrite Hipc. reflexivity.
Qed.

End UnitBatches.

Lemma generate_items_one_per_creator_witness :
  (exists items',
     fst (generate_items (Examples.two_creators 1 (1 # 2)))
     = Return (transpose items') /\
     shape0 items' = 2) /\
  fst (generate_items Examples.negative_entry) = Raise ValueError /\
  ordered_creator_ids (snd (generate_items Examples.negative_entry)) = [0].
Proof.
  split.
  - destruct (proj1 (@generate_items_one_per_creator Lcg.gen lcg_lawful
                       (Examples.two_creators 1 (1 # 2))
                       ltac:(discriminate) ltac:(discriminate) eq_refl))
      as [items' [Hret [Hs0 _]]].
    + vm_compute. repeat constructor.
    + exists items'. split; [exact Hret | exact Hs0].
  - destruct (@generate_items_one_per_creator Lcg.gen lcg_lawful
                Examples.negative_entry
                ltac:(discriminate) ltac:(discriminate) eq_refl)
      as [_ [Hneg Hraise]].
    apply Hraise. apply Hneg. vm_compute. constructor. reflexivity.
Defined.

Lemma assertion_only_on_length :
  forall (G : Generator) (self : ChaneyCreators G) interactions items,
  length (ordered_creator_ids self) = shape1 items ->
  fst (update_profiles self interactions items) <> Raise AssertionError.
Proof.
  intros G self interactions items Hlen.
  unfold update_profiles, accumulate.
  apply Nat.eqb_eq in Hlen. rewrite Hlen. simpl.
  destruct (norm_indices _ _); [|simpl; congruence].
  unfold add_at.
  repeat match goal with
         | |- context [if ?b then _ else _] => destruct b
         end; simpl; congruence.
Qed.

(** X12: in a run the driver builds with one item per creator, a
    [generate_items] call on profiles whose concentrations the generator
    accepts returns a batch with one column per creator, and the id
    sequence is then exactly as long as the catalog made of the batches
    of all calls so far: the assertion of [update_profiles] holds on
    it. *)
Theorem driver_unit_batches :
  forall (G : Generator) (profiles : ndarray) (args : Args) (n : nat)
         (self : ChaneyCreators G),
  lawful G ->
  items_per_creator_arg args = 1%Z ->
  reachable profiles args n self ->
  (forall c, c < shape0 profiles ->
     dirichlet_accepts G (concentration (actual_creator_profiles self) c) = true) ->
  exists items,
    fst (generate_items self) = Return items /\
    shape1 items = shape0 profiles /\
    length (ordered_creator_ids (snd (generate_items self)))
    = S n * shape1 items /\
    forall interactions catalog,
      shape1 catalog = S n * shape1 items ->
      fst (update_profiles (snd (generate_items self)) interactions catalog)
      <> Raise AssertionError.
Proof.
  intros G profiles args n self HG Hipc Hreach Hacc.
  assert (Hnonneg : (0 <= items_per_creator_arg args)%Z) by lia.
  destruct (reachable_invariant HG Hnonneg Hreach) as [Hi [Hp [Hs _]]].
  pose proof (reachable_invariant HG Hnonneg (reach_generate Hreach))
    as [_ [_ [_ Hids]]].
  destruct (@generate_items_unit_returns G HG self) as
    [items' [Hret [Hs0 _]]]; try (rewrite Hp; discriminate); [congruence| |].
  { rewrite (binomial_sure HG) by (rewrite Hp; reflexivity).
    rewrite nonzero_all, Hs. apply Forall_forall. intros c Hc.
    apply in_seq in Hc. apply Hacc. lia. }
  exists (transpose items'). split; [exact Hret|].
  assert (Hw : shape1 (transpose items') = shape0 profiles)
    by (simpl; congruence).
  split; [exact Hw|].
  assert (Hlen : length (ordered_creator_ids (snd (generate_items self)))
                 = S n * shape1 (transpose items')).
  { rewrite Hids, Hipc, Hw. change (Z.to_nat 1) with 1.
    generalize (S n) as m. induction m as [|m IH]; [reflexivity|].
    simpl repeat. simpl concat.
    rewrite length_app, IH, np_repeat_length, length_seq. lia. }
  split; [exact Hlen|].
  intros interactions catalog Hcat.
  apply assertion_only_on_length. congruence.
Qed.

Lemma driver_unit_batches_witness :
  exists items,
    fst (generate_items
           (init_sim_state Lcg.gen Examples.two_profiles (Examples.args 1)
                           1234%Z 7%Z))
    = Return items /\
    shape1 items = 2.
Proof.
  destruct (@driver_unit_batches Lcg.gen Examples.two_profiles (Examples.args 1) 0
              (init_sim_state Lcg.gen Examples.two_profiles (Examples.args 1)
                              1234%Z 7%Z)
              lcg_lawful eq_refl
              (reach_init Lcg.gen Examples.two_profiles (Examples.args 1)
                          1234%Z 7%Z))
    as [items [Hret [Hw _]]].
  - intros c Hc. simpl in Hc.
    destruct c as [|[|c]]; [reflexivity | reflexivity | lia].
  - exists items. split; [exact Hret | exact Hw].
Defined.

(** ** The scoring functions of the ideal recommender *)

Lemma slice_empty_columns : forall u,
  slice (zeros u 0) u 0 = zeros u 0.
Proof.
  intros u. unfold slice, zeros, full. simpl. rewrite Nat.min_id. f_equal.
  rewrite firstn_all2 by (rewrite repeat_length; lia).
  rewrite map_repeat. reflexivity.
Qed.

(** X13: the first call decides whether the protocol can start.  With
    nothing cached, a call on a non-empty user-item grid raises
    [ValueError] and leaves the cache unset; a call on an empty item set,
    the one the recommender's construction makes, returns an empty score
    matrix and starts the cache with no column. *)
Theorem model_score_fn_first_call :
  forall (G : Generator) (params : ndarray -> float -> ndarray * ndarray)
         (sigma : float) (width : Z) (st : ScoreState G) (ua ia : ndarray),
  true_user_item_utils st = None ->
  (shape0 ua * shape1 ia <> 0 ->
   model_score_fn params sigma width st ua ia = (Raise ValueError, st)) /\
  (shape1 ia = 0 -> width <> 0%Z ->
   fst (model_score_fn params sigma width st ua ia)
   = Return (zeros (shape0 ua) 0) /\
   true_user_item_utils (snd (model_score_fn params sigma width st ua ia))
   = Some (zeros (shape0 ua) 0) /\
   generator (snd (model_score_fn params sigma width st ua ia)) = generator st).
Proof.
  intros G params sigma width st ua ia Hnone. split.
  - intros Hsize. unfold model_score_fn, reshape_empty. rewrite Hnone.
    apply Nat.eqb_neq in Hsize. rewrite Hsize. reflexivity.
  - intros Hempty Hwidth. unfold model_score_fn, reshape_empty.
    rewrite Hnone, Hempty, Nat.mul_0_r. simpl Nat.eqb. cbv iota.
    replace (Z.of_nat 0 =? width)%Z with false
      by (symmetry; apply Z.eqb_neq; simpl; lia).
    simpl shape0. simpl shape1. rewrite !Nat.eqb_refl. simpl andb. cbv iota.
    rewrite slice_empty_columns. simpl. auto.
Qed.

Lemma model_score_fn_first_call_witness :
  fst (model_score_fn Examples.identity_params (Examples.q 1 100) 2
         (mkScoreState Lcg.gen None 7%Z) (Examples.one_by_one one) (zeros 1 0))
  = Return (zeros 1 0).
Proof.
  refine (proj1 (proj2 (@model_score_fn_first_call Lcg.gen
            Examples.identity_params (Examples.q 1 100) 2
            (mkScoreState Lcg.gen None 7%Z) (Examples.one_by_one one) (zeros 1 0)
            eq_refl) eq_refl _)).
  discriminate.
Defined.

Lemma hstack_row : forall (l1 l2 : list (list float)) i,
  length l1 = length l2 -> i < length l1 ->
  nth i (map (fun rs => fst rs ++ snd rs) (combine l1 l2)) []
  = nth i l1 [] ++ nth i l2 [].
Proof.
  intros l1 l2 i Hlen Hi.
  change (@nil float) with ((fun rs : list float * list float => fst rs ++ snd rs)
                              ([], [])) at 1.
  rewrite map_nth, combine_nth by exact Hlen. reflexivity.
Qed.

(** X14: the cache only grows, to the right.  After any call on a filled,
    well-shaped cache, whether it returns or raises, the cache has the
    same rows as before, at least as many columns, and every cached
    utility is still in its place. *)
Theorem model_score_fn_cache_append_only :
  forall (G : Generator) (params : ndarray -> float -> ndarray * ndarray)
         (sigma : float) (width : Z) (st : ScoreState G) (c ua ia : ndarray),
  lawful G ->
  true_user_item_utils st = Some c -> wf c ->
  exists c',
    true_user_item_utils (snd (model_score_fn params sigma width st ua ia))
    = Some c' /\
    shape0 c' = shape0 c /\ shape1 c <= shape1 c' /\
    forall i, i < shape0 c -> firstn (shape1 c) (row c' i) = row c i.
Proof.
  intros G params sigma width st c ua ia HG Hc [Hrows Hcols].
  assert (Hsame : forall i, i < shape0 c -> firstn (shape1 c) (row c i) = row c i).
  { intros i Hi. apply firstn_all2.
    rewrite Forall_forall in Hcols. rewrite (Hcols (row c i)); [lia|].
    apply nth_In. lia. }
  unfold model_score_fn. rewrite Hc.
  destruct (Z.of_nat (shape1 ia) =? width)%Z.
  - destruct (matmul ua ia) as [mean|e]; [|exists c; simpl; auto].
    destruct (params _ sigma) as [user_alphas user_betas].
    pose proof (beta_shape HG (generator st) user_alphas user_betas
                  (shape0 ua) (shape1 ia)) as [Hb0 [_ [Hbr _]]].
    destruct (beta G _ _ _ _ _) as [true_utility g']. simpl in Hb0, Hbr.
    unfold hstack.
    destruct (Nat.eqb_spec (shape0 c) (shape0 true_utility)) as [Heq|Hne];
      [|exists c; simpl; auto].
    eexists. simpl. split; [reflexivity|]. split; [reflexivity|].
    split; [simpl; lia|]. intros i Hi. unfold row. simpl.
    rewrite hstack_row by lia.
    rewrite firstn_app.
    rewrite Forall_forall in Hcols.
    rewrite (Hcols (nth i (rows c) [])) by (apply nth_In; lia).
    rewrite Nat.sub_diag, firstn_O, app_nil_r. apply firstn_all2.
    rewrite (Hcols (nth i (rows c) [])) by (apply nth_In; lia). lia.
  - destruct (_ && _); exists c; simpl; auto.
Qed.

Lemma model_score_fn_cache_append_only_witness :
  exists c',
    true_user_item_utils
      (snd (model_score_fn Examples.identity_params (Examples.q 1 100) 1
              Examples.cached (Examples.one_by_one one) (Examples.one_by_one one)))
    = Some c' /\
    shape0 c' = 1.
Proof.
  destruct (@model_score_fn_cache_append_only Lcg.gen Examples.identity_params
              (Examples.q 1 100) 1 Examples.cached
              (Examples.one_by_one (Examples.q 1 2))
              (Examples.one_by_one one) (Examples.one_by_one one)
              lcg_lawful eq_refl)
    as [c' [Hc' [Hs _]]].
  - split; [reflexivity | repeat constructor].
  - exists c'. split; [exact Hc' | exact Hs].
Defined.

Lemma broadcast_dim_same : forall n, broadcast_dim n n = Some n.
Proof.
  intros n. unfold broadcast_dim. rewrite Nat.eqb_refl. reflexivity.
Qed.

Lemma skipn_hstack_rows : forall (l m : list (list float)) w,
  length l = length m ->
  Forall (fun r => length r = w) l ->
  map (skipn w) (map (fun rs => fst rs ++ snd rs) (combine l m)) = m.
Proof.
  induction l as [|x l IH]; intros m w Hlen Hw.
  - destruct m; [reflexivity | discriminate].
  - destruct m as [|y m]; [discriminate|].
    inversion Hw as [|? ? Hx Hw']; subst. simpl.
    rewrite IH by (simpl in Hlen; auto; lia).
    f_equal. rewrite skipn_app, skipn_all, Nat.sub_diag. reflexivity.
Qed.

Lemma last_columns_hstack : forall c t,
  wf c -> wf t -> shape0 c = shape0 t -> 0 < shape1 t ->
  last_columns (mkArr (shape0 c) (shape1 c + shape1 t)
                      (map (fun rs => fst rs ++ snd rs) (combine (rows c) (rows t))))
               (shape1 t)
  = t.
Proof.
  intros [r0 w l] [r1 n m] [Hl Hlw] [Hm Hmn] Hrows Hn. simpl in *.
  unfold last_columns. simpl.
  destruct (Nat.eqb_spec n 0) as [H0|_]; [lia|].
  replace (w + n - n) with w by lia.
  replace (w + n - w) with n by lia.
  rewrite skipn_hstack_rows by (try assumption; lia).
  rewrite Hrows. reflexivity.
Qed.

Section UserScoreProperties.

Variable G : Generator.
Hypothesis HG : lawful G.
Variable params : ndarray -> float -> ndarray * ndarray.
Variable sigma : float.
Variable alpha : float.
Variable beta' : float.

(** X15: the utilities a user perceives are those of the batch just
    scored.  After [model_score_fn] has scored a batch of positive width
    on a filled cache, the last columns of the cache are exactly the
    utilities it drew, and the user-side function returns their product
    with the shares it draws, one value per user and item. *)
Theorem ideal_user_score_after_batch :
  forall (width : Z) (st : ScoreState G) (c ua ia mean : ndarray),
  true_user_item_utils st = Some c -> wf c ->
  shape0 c = shape0 ua ->
  matmul ua ia = Return mean ->
  Z.of_nat (shape1 ia) = width -> 0 < shape1 ia ->
  let clipped := map_array (fun x => maximum x (Fin (1 # 1000000000))) mean in
  let true_utility :=
    fst (beta G (generator st) (fst (params clipped sigma))
              (snd (params clipped sigma)) (shape0 ua) (shape1 ia)) in
  let st1 := snd (model_score_fn params sigma width st ua ia) in
  let perc :=
    fst (beta G (generator st1) (full alpha (shape0 ua) (shape1 ia))
              (full beta' (shape0 ua) (shape1 ia)) (shape0 ua) (shape1 ia)) in
  exists c1 known,
    true_user_item_utils st1 = Some c1 /\
    last_columns c1 (shape1 ia) = true_utility /\
    fst (ideal_user_score_fn alpha beta' st1 ua ia) = KnownUtility known /\
    multiply true_utility perc = Return known /\
    shape0 known = shape0 ua /\ shape1 known = shape1 ia.
Proof.
  intros width st c ua ia mean Hc Hwf Hrows Hmean Hwidth Hpos
         clipped true_utility st1 perc.
  subst st1 perc true_utility clipped.
  unfold model_score_fn. rewrite Hc, Hmean.
  apply Z.eqb_eq in Hwidth. rewrite Hwidth.
  destruct (params _ sigma) as [user_alphas user_betas]. simpl fst. simpl snd.
  pose proof (beta_shape HG (generator st) user_alphas user_betas
                (shape0 ua) (shape1 ia)) as [Hb0 [Hb1 Hbwf]].
  destruct (beta G (generator st) user_alphas user_betas (shape0 ua) (shape1 ia))
    as [tu g1]. simpl in Hb0, Hb1, Hbwf. simpl fst.
  unfold hstack. rewrite Hb0, Hrows, Nat.eqb_refl. simpl snd.
  unfold ideal_user_score_fn. simpl generator. simpl true_user_item_utils.
  pose proof (beta_shape HG g1 (full alpha (shape0 ua) (shape1 ia))
                (full beta' (shape0 ua) (shape1 ia)) (shape0 ua) (shape1 ia))
    as [Hp0 [Hp1 _]].
  destruct (beta G g1 _ _ _ _) as [perc g2]. simpl in Hp0, Hp1. simpl fst.
  assert (Hlast : last_columns
                    (mkArr (shape0 ua) (shape1 c + shape1 tu)
                       (map (fun rs => fst rs ++ snd rs)
                            (combine (rows c) (rows tu)))) (shape1 ia) = tu).
  { rewrite <- Hrows, <- Hb1. apply last_columns_hstack; try assumption; lia. }
  rewrite Hlast.
  unfold multiply. rewrite Hb0, Hp0, Hb1, Hp1, !broadcast_dim_same.
  rewrite Hb1 in Hlast.
  eexists. eexists. split; [reflexivity|]. split; [exact Hlast|].
  split; [reflexivity|]. split; [reflexivity|]. split; reflexivity.
Qed.

(** X16: an empty batch is not an empty slice for the user-side
    function: [-0] is [0], the slice is the whole cache, and as soon as
    two utilities per user are cached the product with the empty draw
    does not broadcast. *)
Theorem ideal_user_score_empty_batch :
  forall (st : ScoreState G) (c up ia : ndarray),
  true_user_item_utils st = Some c ->
  shape1 ia = 0 -> 2 <= shape1 c ->
  fst (ideal_user_score_fn alpha beta' st up ia) = UserValueError.
Proof.
  intros st c up ia Hc Hempty Hwide. unfold ideal_user_score_fn.
  rewrite Hc, Hempty.
  pose proof (beta_shape HG (generator st) (full alpha (shape0 up) 0)
                (full beta' (shape0 up) 0) (shape0 up) 0) as [_ [Hp1 _]].
  destruct (beta G _ _ _ _ _) as [perc g']. simpl in Hp1.
  unfold multiply, last_columns. simpl. rewrite Hp1, Nat.sub_0_r.
  destruct (broadcast_dim (shape0 c) (shape0 perc)); [|reflexivity].
  unfold broadcast_dim.
  destruct (Nat.eqb_spec (shape1 c) 0); [lia|].
  destruct (Nat.eqb_spec (shape1 c) 1); [lia|]. reflexivity.
Qed.

(** X17: [score_fn] returns exactly when the users have as many
    attributes as the items; it then yields one value per user and item,
    the product of the utility drawn and the share drawn.  Otherwise it
    raises [ValueError], after the first draw has been made. *)
Theorem score_fn_shape :
  forall (g : gstate G) (up ia : ndarray),
  (shape1 up = shape0 ia ->
   exists known,
     fst (score_fn G params sigma alpha beta' g up ia) = Return known /\
     shape0 known = shape0 up /\ shape1 known = shape1 ia /\
     length (rows known) = shape0 up /\
     Forall (fun r => length r = shape1 ia) (rows known)) /\
  (shape1 up <> shape0 ia ->
   score_fn G params sigma alpha beta' g up ia
   = (Raise ValueError,
      snd (beta G g (full alpha (shape0 up) (shape1 ia))
                (full beta' (shape0 up) (shape1 ia)) (shape0 up) (shape1 ia)))).
Proof.
  intros g up ia. unfold score_fn, matmul. split.
  - intros Hinner. apply Nat.eqb_eq in Hinner. rewrite Hinner.
    destruct (beta G g _ _ _ _) as [perc g1] eqn:Hperc.
    pose proof (beta_shape HG g (full alpha (shape0 up) (shape1 ia))
                  (full beta' (shape0 up) (shape1 ia)) (shape0 up) (shape1 ia))
      as [Hp0 [Hp1 _]].
    rewrite Hperc in Hp0, Hp1. simpl in Hp0, Hp1.
    destruct (params _ sigma) as [user_alphas user_betas].
    pose proof (beta_shape HG g1 user_alphas user_betas (shape0 up) (shape1 ia))
      as [Hb0 [Hb1 _]].
    destruct (beta G g1 _ _ _ _) as [tu g2]. simpl in Hb0, Hb1. simpl fst.
    unfold multiply. rewrite Hb0, Hp0, Hb1, Hp1, !broadcast_dim_same.
    eexists. split; [reflexivity|]. simpl.
    split; [reflexivity|]. split; [reflexivity|].
    split; [rewrite length_map, length_seq; reflexivity|].
    apply Forall_forall. intros r Hr.
    apply in_map_iff in Hr. destruct Hr as [i [<- _]].
    rewrite length_map, length_seq. reflexivity.
  - intros Hinner. apply Nat.eqb_neq in Hinner. rewrite Hinner.
    destruct (beta G g _ _ _ _) as [perc g1]. reflexivity.
Qed.

End UserScoreProperties.

Lemma ideal_user_score_after_batch_witness :
  exists c1,
    true_user_item_utils
      (snd (model_score_fn Examples.identity_params (Examples.q 1 100) 1
              Examples.cached Cases.one_user Cases.one_item))
    = Some c1.
Proof.
  destruct (@ideal_user_score_after_batch Lcg.gen lcg_lawful
              Examples.identity_params (Examples.q 1 100)
              (Examples.q 49 1) (Examples.q 1 1)
              1%Z Examples.cached (Examples.one_by_one (Examples.q 1 2))
              Cases.one_user Cases.one_item
              (mkArr 1 1 [[Float.sum [mul (Examples.q 1 2) (Examples.q 1 4);
                                      mul (Examples.q 1 2) (Examples.q 3 4)]]])
              eq_refl)
    as [c1 [known [Hc1 _]]].
  - split; [reflexivity | repeat constructor].
  - reflexivity.
  - reflexivity.
  - reflexivity.
  - simpl. lia.
  - exists c1. exact Hc1.
Defined.

Lemma ideal_user_score_empty_batch_witness :
  fst (ideal_user_score_fn (Examples.q 49 1) (Examples.q 1 1)
         Cases.three_cached Cases.one_user (zeros 2 0))
  = UserValueError.
Proof.
  apply (@ideal_user_score_empty_batch Lcg.gen lcg_lawful
           (Examples.q 49 1) (Examples.q 1 1) Cases.three_cached
           (mkArr 1 3 [[Examples.q 1 2; Examples.q 1 3; Examples.q 1 4]])
           Cases.one_user (zeros 2 0)).
  - reflexivity.
  - reflexivity.
  - simpl. lia.
Defined.

Lemma score_fn_shape_witness :
  exists known,
    fst (score_fn Lcg.gen Examples.identity_params (Examples.q 1 100)
           (Examples.q 49 1) (Examples.q 1 1) 7%Z Cases.one_user Cases.one_item)
    = Return known /\
    shape0 known = 1.
Proof.
  destruct (proj1 (@score_fn_shape Lcg.gen lcg_lawful Examples.identity_params
                     (Examples.q 1 100) (Examples.q 49 1) (Examples.q 1 1)
                     7%Z Cases.one_user Cases.one_item) eq_refl)
    as [known [Hret [Hs _]]].
  exists known. split; [exact Hret | exact Hs].
Defined.

(** ** [construct_metrics] *)

Section MetricsProperties.

Local Open Scope string_scope.

Variable value : Type.
Implicit Types kwargs : list (String.string * value).

Ltac split_chain k :=
  repeat match goal with
         | |- context [if String.eqb k ?s then _ else _] =>
             let E := fresh "E" in destruct (String.eqb k s) eqn:E
         end.

Lemma construct_metric_unknown : forall kwargs k,
  known_key k = false -> construct_metric kwargs k = Metrics [].
Proof.
  intros kwargs k H. unfold known_key, metric_keys in H. simpl in H.
  repeat (apply orb_false_iff in H; destruct H as [? H]).
  unfold construct_metric.
  repeat match goal with
         | Hx : String.eqb k _ = false |- _ => rewrite Hx; clear Hx
         end.
  reflexivity.
Qed.

Lemma construct_metrics_skip : forall kwargs k rest,
  construct_metric kwargs k = Metrics [] ->
  construct_metrics (k :: rest) kwargs = construct_metrics rest kwargs.
Proof.
  intros kwargs k rest H. simpl. rewrite H.
  destruct (construct_metrics rest kwargs); reflexivity.
Qed.

(** X18: keys the chain of comparisons does not know are skipped without
    a trace: the result is that of the known keys alone. *)
Theorem construct_metrics_ignores_unknown : forall keys kwargs,
  construct_metrics (filter known_key keys) kwargs = construct_metrics keys kwargs.
Proof.
  induction keys as [|k keys IH]; intros kwargs; [reflexivity|].
  simpl filter. destruct (known_key k) eqn:Hk.
  - simpl. rewrite IH. reflexivity.
  - rewrite construct_metrics_skip by (apply construct_metric_unknown; exact Hk).
    apply IH.
Qed.

(** X19: the metrics come in the order of the keys, and a list of keys
    can be built in pieces: the result for [keys1 ++ keys2] is the first
    [KeyError] met, or the metrics of [keys1] followed by those of
    [keys2]. *)
Theorem construct_metrics_app : forall keys1 keys2 kwargs,
  construct_metrics (keys1 ++ keys2) kwargs
  = match construct_metrics keys1 kwargs with
    | KeyError _ key => KeyError value key
    | Metrics m1 =>
        match construct_metrics keys2 kwargs with
        | KeyError _ key => KeyError value key
        | Metrics m2 => Metrics (m1 ++ m2)
        end
    end.
Proof.
  induction keys1 as [|k keys1 IH]; intros keys2 kwargs.
  - simpl. destruct (construct_metrics keys2 kwargs); reflexivity.
  - simpl. destruct (construct_metric kwargs k) as [m|key]; [|reflexivity].
    rewrite IH.
    destruct (construct_metrics keys1 kwargs) as [m1|key]; [|reflexivity].
    destruct (construct_metrics keys2 kwargs) as [m2|key]; [|reflexivity].
    rewrite app_assoc. reflexivity.
Qed.

Lemma construct_metric_one : forall kwargs k,
  kwarg kwargs "pairs" <> None ->
  kwarg kwargs "ideal_interactions" <> None ->
  kwarg kwargs "ideal_item_attrs" <> None ->
  kwarg kwargs "target_prefs" <> None ->
  exists m, construct_metric kwargs k = Metrics m /\
            length m = if known_key k then 1 else 0.
Proof.
  intros kwargs k Hp Hii Hia Ht.
  destruct (kwarg kwargs "pairs") as [p|] eqn:Ep; [|congruence].
  destruct (kwarg kwargs "ideal_interactions") as [ii|] eqn:Eii; [|congruence].
  destruct (kwarg kwargs "ideal_item_attrs") as [ia|] eqn:Eia; [|congruence].
  destruct (kwarg kwargs "target_prefs") as [t|] eqn:Et; [|congruence].
  destruct (known_key k) eqn:Hk.
  - unfold construct_metric, with_kwarg. rewrite Ep, Eii, Eia, Et.
    split_chain k; try (eexists; split; reflexivity).
    exfalso. unfold known_key, metric_keys in Hk. simpl in Hk.
    repeat match goal with
           | Hx : String.eqb k _ = false |- _ => rewrite Hx in Hk; clear Hx
           end.
    discriminate.
  - rewrite construct_metric_unknown by exact Hk.
    eexists. split; reflexivity.
Qed.

(** X20: with the four keyword arguments [pairs], [ideal_interactions],
    [ideal_item_attrs] and [target_prefs] present, [construct_metrics]
    never fails and builds exactly one metric for every known key. *)
Theorem construct_metrics_with_all_kwargs : forall keys kwargs,
  kwarg kwargs "pairs" <> None ->
  kwarg kwargs "ideal_interactions" <> None ->
  kwarg kwargs "ideal_item_attrs" <> None ->
  kwarg kwargs "target_prefs" <> None ->
  exists ms, construct_metrics keys kwargs = Metrics ms /\
             length ms = length (filter known_key keys).
Proof.
  intros keys kwargs Hp Hii Hia Ht.
  induction keys as [|k keys [ms [Hms Hlen]]].
  - exists []. split; reflexivity.
  - destruct (@construct_metric_one kwargs k Hp Hii Hia Ht) as [m [Hm Hone]].
    exists (m ++ ms). simpl. rewrite Hm, Hms. split; [reflexivity|].
    rewrite length_app, Hone, Hlen. destruct (known_key k); reflexivity.
Qed.

Lemma construct_metric_key_error : forall kwargs k key,
  construct_metric kwargs k = KeyError value key ->
  kwarg kwargs key = None /\
  In key ["pairs"; "ideal_interactions"; "ideal_item_attrs"; "target_prefs"]%list.
Proof.
  intros kwargs k key. unfold construct_metric, with_kwarg.
  split_chain k; try discriminate;
    repeat match goal with
           | |- context [match kwarg kwargs ?s with Some _ => _ | None => _ end] =>
               let E := fresh "K" in destruct (kwarg kwargs s) eqn:E
           end;
    try discriminate; intros [= <-]; (split; [assumption | simpl; tauto]).
Qed.

(** X21: [construct_metrics] fails exactly when one of its keys fails on
    its own, and the [KeyError] it raises names one of the four keyword
    arguments, missing from the call. *)
Theorem construct_metrics_key_error : forall keys kwargs,
  ((exists key, construct_metrics keys kwargs = KeyError value key) <->
   (exists k key, In k keys /\ construct_metric kwargs k = KeyError value key)) /\
  (forall key, construct_metrics keys kwargs = KeyError value key ->
     kwarg kwargs key = None /\
     In key ["pairs"; "ideal_interactions"; "ideal_item_attrs";
             "target_prefs"]%list).
Proof.
  induction keys as [|k keys IH]; intros kwargs.
  - simpl. split; [split|].
    + intros [key H]. discriminate.
    + intros [k [key [[] _]]].
    + intros key H. discriminate.
  - destruct (IH kwargs) as [[IHfail IHsome] IHkey]. simpl construct_metrics.
    destruct (construct_metric kwargs k) as [m|key0] eqn:Hk.
    + destruct (construct_metrics keys kwargs) as [ms|key1] eqn:Hrest.
      * split; [split|].
        -- intros [key H]. discriminate.
        -- intros [k' [key [[<-|Hin] Hfail]]]; [congruence|].
           destruct IHsome as [key' H']; [exists k', key; auto | discriminate].
        -- intros key H. discriminate.
      * split; [split|].
        -- intros _. destruct IHfail as [k' [key [Hin Hfail]]];
             [exists key1; reflexivity|].
           exists k', key. split; [right; exact Hin | exact Hfail].
        -- intros _. exists key1. reflexivity.
        -- intros key [= <-]. apply IHkey. reflexivity.
    + split; [split|].
      * intros _. exists k, key0. split; [left; reflexivity | exact Hk].
      * intros _. exists key0. reflexivity.
      * intros key [= <-]. apply (@construct_metric_key_error kwargs k key0 Hk).
Qed.

(** X22: the metrics built without keyword arguments need none: on keys
    among [interaction_history], [rmse], the two profile metrics, the
    three entropy and attribute metrics, [afsr] and [pref_change_l2], and
    on unknown keys, [construct_metrics] returns whatever is passed. *)
Theorem construct_metrics_plain_keys : forall keys kwargs,
  Forall (fun k => In k plain_keys \/ known_key k = false) keys ->
  exists ms, construct_metrics keys kwargs = Metrics ms /\
             length ms = length (filter known_key keys).
Proof.
  intros keys kwargs Hkeys.
  induction Hkeys as [|k keys Hk _ [ms [Hms Hlen]]].
  - exists []. split; reflexivity.
  - assert (Hone : exists m, construct_metric kwargs k = Metrics m /\
                             length m = if known_key k then 1 else 0).
    { destruct Hk as [Hin|Hun].
      - unfold plain_keys in Hin. simpl in Hin.
        repeat (destruct Hin as [<-|Hin];
                [eexists; split; reflexivity|]).
        contradiction.
      - rewrite Hun, construct_metric_unknown by exact Hun.
        eexists. split; reflexivity. }
    destruct Hone as [m [Hm Hone]].
    exists (m ++ ms). simpl. rewrite Hm, Hms. split; [reflexivity|].
    rewrite length_app, Hone, Hlen. destruct (known_key k); reflexivity.
Qed.

End MetricsProperties.

Section MetricsWitnesses.

Local Open Scope string_scope.

Lemma construct_metrics_with_all_kwargs_witness :
  exists ms, construct_metrics Cases.some_keys Cases.all_kwargs = Metrics ms /\
             length ms = 3.
Proof.
  apply (@construct_metrics_with_all_kwargs nat Cases.some_keys Cases.all_kwargs);
    discriminate.
Defined.

Lemma construct_metrics_plain_keys_witness :
  exists ms,
    construct_metrics ["rmse"; "no_such_metric"; "afsr"]%list Cases.ideal_kwargs
    = Metrics ms /\
    length ms = 2.
Proof.
  apply (@construct_metrics_plain_keys nat
           ["rmse"; "no_such_metric"; "afsr"]%list Cases.ideal_kwargs).
  apply Forall_cons; [left; simpl; tauto|].
  apply Forall_cons; [right; reflexivity|].
  apply Forall_cons; [left; simpl; tauto|].
  apply Forall_nil.
Defined.

End MetricsWitnesses.

(** ** [sample_users_and_creators] *)

Section SamplingProperties.

Variable G : Generator.
Hypothesis HG : lawful G.
Variable network : Type.
Variable gen_social_network : ndarray -> network.

Lemma dirichlet_array_shape : forall g concentration size,
  let a := fst (dirichlet_array G g concentration size) in
  shape0 a = size /\ shape1 a = length concentration /\ wf a.
Proof.
  intros g concentration size. unfold dirichlet_array.
  pose proof (dirichlet_shape HG g concentration size) as [Hlen Hrows].
  destruct (dirichlet G g concentration size) as [draw g']. simpl in *.
  repeat split; assumption.
Qed.

Lemma scaled_draw_rows : forall g n size i,
  i < size ->
  length (nth i (map (map (fun x => mul x (Fin 10)))
                     (fst (dirichlet G g (repeat one n) size))) []) = n.
Proof.
  intros g n size i Hi.
  pose proof (dirichlet_shape HG g (repeat one n) size) as [Hlen Hrows].
  rewrite repeat_length in Hrows.
  change (@nil float) with (map (fun x => mul x (Fin 10)) []).
  rewrite map_nth, length_map.
  rewrite Forall_forall in Hrows. apply Hrows, nth_In. lia.
Qed.

Lemma sample_simulations_shapes :
  forall num_users num_creators num_attrs user_params user_params_target sims g,
  Forall (fun i => length (nth i user_params []) = num_attrs /\
                   length (nth i user_params_target []) = num_attrs) sims ->
  let s := fst (sample_simulations G gen_social_network user_params
                  user_params_target num_users num_creators num_attrs sims g) in
  length (users s) = length sims /\
  Forall (fun a => shape0 a = num_users /\ shape1 a = num_attrs /\ wf a)
         (users s) /\
  length (user_targets s) = length sims /\
  Forall (fun a => shape0 a = num_users /\ shape1 a = num_attrs /\ wf a)
         (user_targets s) /\
  length (creators s) = length sims /\
  Forall (fun a => shape0 a = num_creators /\ shape1 a = num_attrs /\ wf a)
         (creators s) /\
  social_networks s = map gen_social_network (users s).
Proof.
  intros num_users num_creators num_attrs user_params user_params_target sims.
  induction sims as [|i sims IH]; intros g Hsims.
  - simpl. repeat split; constructor.
  - apply Forall_cons_iff in Hsims. destruct Hsims as [[Hu Ht] Hrest]. simpl.
    pose proof (dirichlet_array_shape g (nth i user_params []) num_users) as Ha.
    destruct (dirichlet_array G g (nth i user_params []) num_users)
      as [user_prefs g1].
    pose proof (dirichlet_array_shape g1 (nth i user_params_target []) num_users)
      as Hb.
    destruct (dirichlet_array G g1 (nth i user_params_target []) num_users)
      as [user_prefs_target g2].
    pose proof (dirichlet_array_shape g2
                  (map (fun x => mul x (Fin 10)) (repeat one num_attrs))
                  num_creators) as Hc.
    destruct (dirichlet_array G g2 _ num_creators) as [creator_attrs g3].
    specialize (IH g3 Hrest).
    destruct (sample_simulations G gen_social_network user_params
                user_params_target num_users num_creators num_attrs sims g3)
      as [later g4].
    simpl in *. rewrite Hu in Ha. rewrite Ht in Hb.
    rewrite length_map, repeat_length in Hc.
    destruct IH as [I1 [I2 [I3 [I4 [I5 [I6 I7]]]]]].
    repeat split; try (f_equal; assumption); try (constructor; assumption).
Qed.

(** X23: with a generator whose draws have the size asked for, each of
    the four lists [sample_users_and_creators] returns has one entry per
    simulation; the user and target preferences are [num_users] by
    [num_attrs] arrays, the creator profiles [num_creators] by
    [num_attrs], and the social network of a simulation is generated from
    its users' preferences, not from the targets. *)
Theorem sample_users_and_creators_shapes :
  forall g num_users num_creators num_attrs num_sims,
  let s := fst (sample_users_and_creators G gen_social_network g
                  num_users num_creators num_attrs num_sims) in
  length (users s) = num_sims /\
  Forall (fun a => shape0 a = num_users /\ shape1 a = num_attrs /\ wf a)
         (users s) /\
  length (user_targets s) = num_sims /\
  Forall (fun a => shape0 a = num_users /\ shape1 a = num_attrs /\ wf a)
         (user_targets s) /\
  length (creators s) = num_sims /\
  Forall (fun a => shape0 a = num_creators /\ shape1 a = num_attrs /\ wf a)
         (creators s) /\
  social_networks s = map gen_social_network (users s).
Proof.
  intros g num_users num_creators num_attrs num_sims.
  unfold sample_users_and_creators.
  pose proof (@scaled_draw_rows g num_attrs num_sims) as H1.
  destruct (dirichlet G g (repeat one num_attrs) num_sims) as [draw g1].
  pose proof (@scaled_draw_rows g1 num_attrs num_sims) as H2.
  destruct (dirichlet G g1 (repeat one num_attrs) num_sims) as [draw_target g2].
  simpl in H1, H2.
  pose proof (@sample_simulations_shapes num_users num_creators num_attrs
                (map (map (fun x => mul x (Fin 10))) draw)
                (map (map (fun x => mul x (Fin 10))) draw_target)
                (seq 0 num_sims) g2) as H.
  rewrite length_seq in H. apply H.
  apply Forall_forall. intros i Hi. apply in_seq in Hi.
  split; [apply H1 | apply H2]; lia.
Qed.

End SamplingProperties.

Lemma sample_users_and_creators_shapes_witness :
  let s := fst (sample_users_and_creators Lcg.gen (fun a => shape0 a)
                  7%Z 3 2 2 2) in
  length (users s) = 2 /\
  Forall (fun a => shape0 a = 3 /\ shape1 a = 2 /\ wf a) (users s) /\
  length (user_targets s) = 2 /\
  Forall (fun a => shape0 a = 3 /\ shape1 a = 2 /\ wf a) (user_targets s) /\
  length (creators s) = 2 /\
  Forall (fun a => shape0 a = 2 /\ shape1 a = 2 /\ wf a) (creators s) /\
  social_networks s = map (fun a => shape0 a) (users s).
Proof.
  apply (@sample_users_and_creators_shapes Lcg.gen lcg_lawful nat
           (fun a => shape0 a) 7%Z 3 2 2 2).
Defined.

(** ** [CreatorItemHomogenization.measure] *)

Lemma column_hstack_rows : forall (l m : list (list float)) w j,
  length l = length m ->
  Forall (fun r => length r = w) l ->
  map (fun r => nth (w + j) r zero)
      (map (fun rs => fst rs ++ snd rs) (combine l m))
  = map (fun r => nth j r zero) m.
Proof.
  induction l as [|x l IH]; intros m w j Hlen Hw.
  - destruct m; [reflexivity | discriminate].
  - destruct m as [|y m]; [discriminate|].
    apply Forall_cons_iff in Hw. destruct Hw as [Hx Hw]. simpl.
    rewrite IH by (simpl in Hlen; auto; lia).
    f_equal. rewrite <- Hx. apply app_nth2_plus.
Qed.

Lemma map_seq_shift : forall (A : Type) (f g : nat -> A) n a b,
  (forall j, j < n -> f (a + j) = g (b + j)) ->
  map f (seq a n) = map g (seq b n).
Proof.
  intros A f g. induction n as [|n IH]; intros a b H; [reflexivity|].
  simpl. f_equal.
  - specialize (H 0). rewrite !Nat.add_0_r in H. apply H. lia.
  - apply IH. intros j Hj. specialize (H (S j)).
    rewrite !Nat.add_succ_r in H. simpl. apply H. lia.
Qed.

Lemma last_rows_transpose_hstack : forall old recent,
  wf old -> wf recent -> shape0 old = shape0 recent ->
  last_rows (rows (transpose
               (mkArr (shape0 old) (shape1 old + shape1 recent)
                      (map (fun rs => fst rs ++ snd rs)
                           (combine (rows old) (rows recent))))))
            (shape1 recent)
  = rows (transpose recent).
Proof.
  intros [r0 w l] [r1 n m] [Hl Hlw] [Hm Hmn] Hrows. simpl in *.
  unfold last_rows, transpose, column. simpl.
  rewrite length_map, length_seq.
  replace (w + n - n) with w by lia.
  rewrite seq_app, map_app, skipn_app, length_map, length_seq, Nat.sub_diag.
  rewrite skipn_all2 by (rewrite length_map, length_seq; lia).
  simpl. apply map_seq_shift. intros j _.
  apply column_hstack_rows; [lia | assumption].
Qed.

(** X24: when the number of items is a multiple of the number of
    creators, the measurement passes its assertion and observes the mean
    distance of the last [num_creators] columns of the item matrix,
    whichever iterations made them: the assertion looks at the total
    only. *)
Theorem homogenization_measures_last_columns :
  forall pdist_mean profiles old recent catalog,
  wf old -> wf recent ->
  hstack old recent = Return catalog ->
  shape1 recent = shape0 profiles ->
  0 < shape0 profiles ->
  shape1 old mod shape0 profiles = 0 ->
  homogenization_measure pdist_mean (mkView profiles (shape1 catalog) catalog)
  = Observed (Some (pdist_mean (rows (transpose recent)))).
Proof.
  intros pdist_mean profiles old recent catalog Hold Hrecent Hstack Hn Hpos Hmod.
  unfold hstack in Hstack.
  destruct (Nat.eqb_spec (shape0 old) (shape0 recent)) as [Hrows|]; [|discriminate].
  injection Hstack as <-.
  pose proof (last_rows_transpose_hstack Hold Hrecent Hrows) as Hlast.
  unfold homogenization_measure.
  cbn [creator_profiles_view items_num_items actual_item_attributes shape1].
  destruct (Nat.eqb_spec (shape1 old + shape1 recent) 0) as [|_]; [lia|].
  destruct (Nat.eqb_spec (shape0 profiles) 0) as [|_]; [lia|].
  assert (Hm : (shape1 old + shape1 recent) mod shape0 profiles = 0).
  { rewrite Hn. replace (shape1 old + shape0 profiles)
      with (shape1 old + 1 * shape0 profiles) by lia.
    rewrite Nat.Div0.mod_add. exact Hmod. }
  rewrite Hm. cbn [Nat.eqb negb]. rewrite <- Hn, Hlast. reflexivity.
Qed.

Lemma homogenization_measures_last_columns_witness :
  homogenization_measure Cases.first_entry
    (mkView Examples.two_profiles 4 Cases.two_batches)
  = Observed (Some (Examples.q 1 3)).
Proof.
  apply (@homogenization_measures_last_columns Cases.first_entry
           Examples.two_profiles Cases.first_batch Cases.second_batch
           Cases.two_batches).
  - split; [reflexivity | repeat constructor].
  - split; [reflexivity | repeat constructor].
  - reflexivity.
  - reflexivity.
  - simpl. lia.
  - reflexivity.
Defined.
